(** * Language-classifier performance analysis: model of [index.js]

    A shallow embedding of the batch pipeline of [index.js]: the paginated
    text-preview fetcher with its page normalisation, the dual language
    detection, the classification into buckets, the sampler, the manual
    tally and the start-up of the two jobs on the event loop. *)

From Stdlib Require Import NArith Lia Permutation Ascii String DecimalN.
From stdpp Require Import gmap strings list fin_maps.

Open Scope N_scope.

(** ** Strings

    A JavaScript string is a sequence of UTF-16 code units; [length],
    [slice] and the regular expressions of the source (none has the [u]
    flag) all work on code units. *)

Abbreviation jsstring := (list N).

Definition lit (s : string) : jsstring :=
  (fun a => N_of_ascii a) <$> list_ascii_of_string s.

Definition String_length (s : jsstring) : N := N.of_nat (length s).

(** [s.slice(0, n)] for a non-negative [n]. *)
Definition slice0 (n : N) (s : jsstring) : jsstring := take (N.to_nat n) s.

Definition SP : N := 32.
Definition TAB : N := 9.
Definition LF : N := 10.
Definition CR : N := 13.

(** Decimal digits of a number, as the template literal [`${page}`] prints it. *)
Fixpoint uint_units (d : Decimal.uint) : jsstring :=
  match d with
  | Decimal.Nil => []
  | Decimal.D0 d => 48 :: uint_units d
  | Decimal.D1 d => 49 :: uint_units d
  | Decimal.D2 d => 50 :: uint_units d
  | Decimal.D3 d => 51 :: uint_units d
  | Decimal.D4 d => 52 :: uint_units d
  | Decimal.D5 d => 53 :: uint_units d
  | Decimal.D6 d => 54 :: uint_units d
  | Decimal.D7 d => 55 :: uint_units d
  | Decimal.D8 d => 56 :: uint_units d
  | Decimal.D9 d => 57 :: uint_units d
  end.

Definition Number_toString (n : N) : jsstring := uint_units (N.to_uint n).

(** ** [String.prototype.replaceAll] with a global regular expression

    The regular expression is given by its match attempt at one index:
    [m atStart suffix] is the length of the match that starts at the
    current index ([atStart] tells whether that index is 0, which is what
    [^] tests without the [m] flag; [suffix] is the input from the index
    on), or [None] when the pattern fails there.  The scan is that of
    [RegExp.prototype[Symbol.replace]]: after a non-empty match the search
    resumes at its end, after an empty match one code unit further, and an
    index where the pattern fails is copied to the output. *)

Section ReplaceAll.
Variable m : bool -> jsstring -> option nat.
Variable replacement : jsstring.

(** [skip] counts the code units of the current match still to drop. *)
Fixpoint scan (atStart : bool) (skip : nat) (s : jsstring) : jsstring :=
  match skip with
  | S k =>
      match s with
      | [] => []
      | _ :: t => scan false k t
      end
  | O =>
      match m atStart s with
      | Some (S k) =>
          replacement ++
          match s with
          | [] => []
          | _ :: t => scan false k t
          end
      | Some O =>
          replacement ++
          match s with
          | [] => []
          | c :: t => c :: scan false 0 t
          end
      | None =>
          match s with
          | [] => []
          | c :: t => c :: scan false 0 t
          end
      end
  end.

Definition replaceAll (s : jsstring) : jsstring := scan true 0 s.
End ReplaceAll.

(** *** The four patterns of [getTextPreview] *)

(** Number of leading U+0020 code units: what a greedy [ +] consumes. *)
Fixpoint spaces (s : jsstring) : nat :=
  match s with
  | c :: t => if c =? SP then S (spaces t) else O
  | [] => O
  end.

(** [/ +/g] *)
Definition re_spaces (atStart : bool) (s : jsstring) : option nat :=
  match spaces s with
  | O => None
  | n => Some n
  end.

(** [/(^ +| +$)/g]: the first alternative needs index 0, the second needs
    the run of spaces to reach the end of the input (giving back spaces
    cannot help: the next code unit is then a space, not the end). *)
Definition re_edges (atStart : bool) (s : jsstring) : option nat :=
  let n := spaces s in
  if atStart && negb (Nat.eqb n 0) then Some n
  else if negb (Nat.eqb n 0) && Nat.eqb n (length s) then Some n
  else None.

(** [c?] at the head of [s]: code units consumed (greedy). *)
Definition optional (c : N) (s : jsstring) : nat :=
  match s with
  | x :: _ => if x =? c then 1%nat else O
  | [] => O
  end.

(** One pass of the group [\r?\n?\t?]. *)
Definition crlftab_once (s : jsstring) : nat :=
  let a := optional CR s in
  let b := optional LF (drop a s) in
  let c := optional TAB (drop (a + b) s) in
  (a + b + c)%nat.

(** [(\r?\n?\t?)+]: the first pass may be empty; a further pass that
    consumes nothing is rejected, which ends the repetition. *)
Fixpoint crlftab_more (fuel : nat) (s : jsstring) : nat :=
  match fuel with
  | O => O
  | S fuel =>
      match crlftab_once s with
      | O => O
      | n => (n + crlftab_more fuel (drop n s))%nat
      end
  end.

(** [/(\r?\n?\t?)+/g]: matches at every index, possibly the empty string. *)
Definition re_crlftab (atStart : bool) (s : jsstring) : option nat :=
  let n := crlftab_once s in
  Some (n + crlftab_more (length s) (drop n s))%nat.

(** What [.] refuses without the [s] flag. *)
Definition lineTerminator (c : N) : bool :=
  (c =? LF) || (c =? CR) || (c =? 8232) || (c =? 8233).

(** [.*?(?= |$)]: the lazy star stops at the first index whose lookahead
    holds (a space, or the end of the input) and fails on a line
    terminator met before that. *)
Fixpoint lazy_dots (s : jsstring) : option nat :=
  match s with
  | [] => Some O
  | c :: t =>
      if c =? SP then Some O
      else if lineTerminator c then None
      else S <$> lazy_dots t
  end.

Fixpoint strip_prefix (p s : jsstring) : option jsstring :=
  match p with
  | [] => Some s
  | a :: p' =>
      match s with
      | [] => None
      | c :: t => if c =? a then strip_prefix p' t else None
      end
  end.

(** [/https?.*?(?= |$)/g]: [s?] first takes the [s], and is retried
    without it when the rest fails. *)
Definition re_url (atStart : bool) (s : jsstring) : option nat :=
  match strip_prefix (lit "http") s with
  | None => None
  | Some t =>
      match strip_prefix (lit "s") t with
      | Some t' =>
          match lazy_dots t' with
          | Some k => Some (5 + k)%nat
          | None => (fun k => (4 + k)%nat) <$> lazy_dots t
          end
      | None => (fun k => (4 + k)%nat) <$> lazy_dots t
      end
  end.

(** The chain of lines 46-50. *)
Definition normalize (str : jsstring) : jsstring :=
  replaceAll re_url []
    (replaceAll re_crlftab []
       (replaceAll re_edges []
          (replaceAll re_spaces [SP] str))).

(** *** The steps of [normalize], by recursion on the text

    What each [replaceAll] of the chain computes, written without the
    scan; the properties below relate the two. *)

Definition starts_with_space (s : jsstring) : bool :=
  match s with
  | c :: _ => c =? SP
  | [] => false
  end.

(** Drops every space that a space follows. *)
Fixpoint squeeze (s : jsstring) : jsstring :=
  match s with
  | [] => []
  | c :: t =>
      if (c =? SP) && starts_with_space t then squeeze t else c :: squeeze t
  end.

(** Nothing but spaces. *)
Definition blank (s : jsstring) : bool := Nat.eqb (spaces s) (length s).

Fixpoint trim_end (s : jsstring) : jsstring :=
  match s with
  | [] => []
  | c :: t => if blank s then [] else c :: trim_end t
  end.

Definition trim (s : jsstring) : jsstring := trim_end (drop (spaces s) s).

(** The code units that [\r], [\n] and [\t] match. *)
Definition control (c : N) : bool := (c =? CR) || (c =? LF) || (c =? TAB).

(** Number of leading control code units. *)
Fixpoint controls (s : jsstring) : nat :=
  match s with
  | c :: t => if control c then S (controls t) else O
  | [] => O
  end.

Definition strip_controls (s : jsstring) : jsstring :=
  List.filter (fun c => negb (control c)) s.

(** No two spaces in a row. *)
Fixpoint single_spaced (s : jsstring) : Prop :=
  match s with
  | [] => True
  | c :: t => ((c =? SP) && starts_with_space t = false) ∧ single_spaced t
  end.

(** [http] starts at no index. *)
Fixpoint no_url (s : jsstring) : Prop :=
  match s with
  | [] => True
  | _ :: t => strip_prefix (lit "http") s = None ∧ no_url t
  end.

(** A text without line breaks, tabs and addresses: no [\r], [\n] or [\t]
    code unit, and no occurrence of [http]. *)
Definition plain (s : jsstring) : Prop :=
  Forall (fun c => control c = false) s ∧ no_url s.

(** ** Results of a call

    An [async] function settles with a value or rejects with a thrown
    value; a call whose loop is cut off by the fuel of the model has
    neither happened yet. *)

(** Thrown values.  Only the exceptions of the storage client carry a
    [Code] property. *)
Inductive exn :=
| ServiceException (code : jsstring)
| TypeError
| OtherError (message : string).

Definition Code (e : exn) : option jsstring :=
  match e with
  | ServiceException code => Some code
  | TypeError | OtherError _ => None
  end.

Inductive outcome (A : Type) :=
| Returned (a : A)
| Thrown (e : exn)
| OutOfFuel.
Arguments Returned {A} a.
Arguments Thrown {A} e.
Arguments OutOfFuel {A}.

#[global] Instance outcome_ret : MRet outcome := fun A a => Returned a.

#[global] Instance outcome_bind : MBind outcome := fun A B f x =>
  match x with
  | Returned a => f a
  | Thrown e => Thrown e
  | OutOfFuel => OutOfFuel
  end.

(** What an external call answers: a value, or a thrown value. *)
Inductive reply (A : Type) :=
| Body (a : A)
| Raise (e : exn).
Arguments Body {A} a.
Arguments Raise {A} e.

Definition settle {A} (r : reply A) : outcome A :=
  match r with
  | Body a => Returned a
  | Raise e => Thrown e
  end.

(** ** [getTextPreview] (lines 33-63) *)

Definition MAX_TEXT_LENGTH : N := 24000.

(** The key of line 41. *)
Definition pageKey (fileFingerprint : jsstring) (page : N) : jsstring :=
  lit "TextPreview/" ++ fileFingerprint ++ lit "/" ++
  Number_toString page ++ lit ".txt".

(** How one turn of the [while] loop ends. *)
Inductive turn :=
| Next (page : N) (textPreview : jsstring)
| Break (textPreview : jsstring)
| Exit (textPreview : jsstring)
| Rethrow (e : exn).

Section TextPreview.
(** [client.send] on the bucket followed by [Body.transformToString],
    as a function of the object key. *)
Variable client : jsstring -> reply jsstring.

Definition loop_turn (fileFingerprint : jsstring) (page : N)
    (textPreview : jsstring) : turn :=
  if String_length textPreview <? MAX_TEXT_LENGTH then
    match client (pageKey fileFingerprint page) with
    | Body str => Next (page + 1) (textPreview ++ normalize str)
    | Raise error =>
        if bool_decide (Code error = Some (lit "NoSuchKey"))
        then Break textPreview
        else Rethrow error
    end
  else Exit textPreview.

Fixpoint getTextPreview_loop (fuel : nat) (fileFingerprint : jsstring)
    (page : N) (textPreview : jsstring) : outcome jsstring :=
  match fuel with
  | O => OutOfFuel
  | S fuel =>
      match loop_turn fileFingerprint page textPreview with
      | Next page' textPreview' =>
          getTextPreview_loop fuel fileFingerprint page' textPreview'
      | Break textPreview' | Exit textPreview' =>
          Returned (slice0 MAX_TEXT_LENGTH textPreview')
      | Rethrow e => Thrown e
      end
  end.

Definition getTextPreview (fuel : nat) (fileFingerprint : jsstring)
    : outcome jsstring :=
  getTextPreview_loop fuel fileFingerprint 1 [].

(** The accumulator after the pages [page], ..., [page + n - 1], when
    each of them is there. *)
Fixpoint pages_text (n : nat) (fileFingerprint : jsstring) (page : N)
    : option jsstring :=
  match n with
  | O => Some []
  | S n =>
      match client (pageKey fileFingerprint page) with
      | Body str =>
          (fun rest => normalize str ++ rest) <$>
            pages_text n fileFingerprint (page + 1)
      | Raise _ => None
      end
  end.
End TextPreview.

(** ** [detectLanguage] (lines 65-84) *)

(** An entry of the [language] array of the service's answer. *)
Record Candidate := { codex : jsstring }.

Record Detection := { new : jsstring; old : jsstring }.

Section Detect.
(** The request of lines 68-76: the decoded [language] array of the
    answer, or what [fetch] or [response.json] throws. *)
Variable service : jsstring -> reply (list Candidate).
(** [langdetect.detect(text, 1)]: the guesses, language first, then the
    score (not used by the program). *)
Variable langdetect_detect : jsstring -> list (jsstring * N).

Definition detectLanguage (textPreview : jsstring) : outcome Detection :=
  language ← settle (service textPreview);
  match language with
  | [] => Thrown TypeError
  | first :: _ =>
      Returned
        {| new := codex first;
           old := match langdetect_detect textPreview with
                  | [] => []
                  | guess :: _ => guess.1
                  end |}
  end.
End Detect.

(** ** Records and files

    The objects of the program are records; [toObject] gives the
    properties of the object literal that builds each of them, in order,
    which is what [JSON.stringify] writes.  A file holds a JSON array of
    objects. *)

Inductive value :=
| Str (s : jsstring)
| Num (n : N).

#[global] Instance value_eq_dec : EqDecision value.
Proof. solve_decision. Defined.

Abbreviation object := (list (string * value)).

(** [o.k], with [None] for [undefined]. *)
Fixpoint prop (k : string) (o : object) : option value :=
  match o with
  | [] => None
  | (k', v) :: o' => if String.eqb k' k then Some v else prop k o'
  end.

Definition keys (o : object) : list string := fst <$> o.

Abbreviation files := (gmap jsstring (list object)).

(** [fs.writeFileSync(path, JSON.stringify(data))], when the file system
    accepts the path.  The call that can throw is [write_each], below. *)
Definition writeFileSync (path : jsstring) (data : list object) (fs : files)
    : files :=
  <[path := data]> fs.

(** A row of the materials file (all columns are strings). *)
Module SourceRow.
Record t := { id : jsstring; fileurl : jsstring; name : jsstring }.
End SourceRow.

(** The object built at lines 192-202. *)
Module ResultRecord.
Record t := {
  id : jsstring;
  name : jsstring;
  fileurl : jsstring;
  currentLanguage : jsstring;
  expectedLanguage : jsstring;
  newDetectedLanguage : jsstring;
  oldDetectedLanguage : jsstring;
  textPreviewLength : N;
  textPreview : jsstring }.

Definition toObject (r : t) : object :=
  [ ("id", Str (id r)); ("name", Str (name r));
    ("fileurl", Str (fileurl r));
    ("currentLanguage", Str (currentLanguage r));
    ("expectedLanguage", Str (expectedLanguage r));
    ("newDetectedLanguage", Str (newDetectedLanguage r));
    ("oldDetectedLanguage", Str (oldDetectedLanguage r));
    ("textPreviewLength", Num (textPreviewLength r));
    ("textPreview", Str (textPreview r)) ]%string.

Definition fields : list string :=
  [ "id"; "name"; "fileurl"; "currentLanguage"; "expectedLanguage";
    "newDetectedLanguage"; "oldDetectedLanguage"; "textPreviewLength";
    "textPreview" ]%string.
End ResultRecord.

(** The object built at lines 95-102, an element of [newResults]. *)
Module Summary.
Record t := {
  id : jsstring;
  name : jsstring;
  currentLanguage : jsstring;
  expectedLanguage : jsstring;
  newDetectedLanguage : jsstring;
  oldDetectedLanguage : jsstring }.

Definition toObject (r : t) : object :=
  [ ("id", Str (id r)); ("name", Str (name r));
    ("currentLanguage", Str (currentLanguage r));
    ("expectedLanguage", Str (expectedLanguage r));
    ("newDetectedLanguage", Str (newDetectedLanguage r));
    ("oldDetectedLanguage", Str (oldDetectedLanguage r)) ]%string.

#[global] Instance eq_dec : EqDecision t.
Proof. solve_decision. Defined.
End Summary.

(** ** [aggregateResults] (lines 86-138) *)

(** The arrow function of lines 88-102. *)
Definition summarize (r : ResultRecord.t) : Summary.t :=
  {| Summary.id := ResultRecord.id r;
     Summary.name := ResultRecord.name r;
     Summary.currentLanguage := ResultRecord.currentLanguage r;
     Summary.expectedLanguage := ResultRecord.expectedLanguage r;
     Summary.newDetectedLanguage := ResultRecord.newDetectedLanguage r;
     Summary.oldDetectedLanguage := ResultRecord.oldDetectedLanguage r |}.

Record Buckets := {
  differentResults : list Summary.t;
  sameAsCurrent : list Summary.t;
  sameAsExpected : list Summary.t }.

Definition classify (results : list ResultRecord.t) : Buckets :=
  let newResults := summarize <$> results in
  {| differentResults :=
       filter (fun result =>
                 Summary.expectedLanguage result ≠
                   Summary.newDetectedLanguage result ∧
                 Summary.currentLanguage result ≠
                   Summary.newDetectedLanguage result) newResults;
     sameAsCurrent :=
       filter (fun result =>
                 Summary.currentLanguage result =
                   Summary.newDetectedLanguage result) newResults;
     sameAsExpected :=
       filter (fun result =>
                 Summary.expectedLanguage result =
                   Summary.newDetectedLanguage result) newResults |}.

Definition aggregateResults (results : list ResultRecord.t)
    (outputFolder : jsstring) (fs : files) : Buckets * files :=
  let b := classify results in
  let fs :=
    writeFileSync
      (outputFolder ++ lit "/different-than-expected-and-current.json")
      (Summary.toObject <$> differentResults b) fs in
  let fs :=
    writeFileSync (outputFolder ++ lit "/same-as-current.json")
      (Summary.toObject <$> sameAsCurrent b) fs in
  let fs :=
    writeFileSync (outputFolder ++ lit "/same-as-expected.json")
      (Summary.toObject <$> sameAsExpected b) fs in
  (b, fs).

(** ** [getSample] and [getSamples] (lines 140-169)

    The comparator of line 142 ignores its arguments; [cmp k] is the sign
    of the value its [k]-th call returns ([Lt] negative, [Eq] zero, [Gt]
    positive).  [Array.prototype.sort] is the engine's: it is modelled as
    an insertion sort, which, like the sorts of the engines, only moves
    the elements of the array and asks the comparator where to put them. *)

Section Sample.
Context {A : Type}.
Variable cmp : nat -> comparison.

(** Insert [x] into [sorted]; [calls] counts the comparator calls. *)
Fixpoint insert_sorted (calls : nat) (x : A) (sorted : list A)
    : list A * nat :=
  match sorted with
  | [] => ([x], calls)
  | y :: rest =>
      match cmp calls with
      | Gt =>
          let '(placed, calls') := insert_sorted (S calls) x rest in
          (y :: placed, calls')
      | _ => (x :: y :: rest, S calls)
      end
  end.

Fixpoint Array_sort (calls : nat) (l : list A) : list A * nat :=
  match l with
  | [] => ([], calls)
  | x :: rest =>
      let '(sorted, calls') := Array_sort calls rest in
      insert_sorted calls' x sorted
  end.

Definition sampleSize : nat := 25.

(** The sample, and the number of comparator calls so far.  (The sort
    is in place: the bucket itself is left shuffled; the program does not
    read it again.) *)
Definition getSample (calls : nat) (results : list A) : list A * nat :=
  let '(shuffled, calls') := Array_sort calls results in
  (take sampleSize shuffled, calls').
End Sample.

Definition getSamples (cmp : nat -> comparison) (b : Buckets)
    (outputFolder : jsstring) (fs : files) : files :=
  let '(differentResultsSample, calls) :=
    getSample cmp 0 (differentResults b) in
  let '(sameAsCurrentSample, calls) := getSample cmp calls (sameAsCurrent b) in
  let '(sameAsExpectedSample, _) := getSample cmp calls (sameAsExpected b) in
  let fs :=
    writeFileSync
      (outputFolder ++
         lit "/manual-analysis/different-than-expected-and-current-sample.json")
      (Summary.toObject <$> differentResultsSample) fs in
  let fs :=
    writeFileSync
      (outputFolder ++ lit "/manual-analysis/same-as-current-sample.json")
      (Summary.toObject <$> sameAsCurrentSample) fs in
  writeFileSync
    (outputFolder ++ lit "/manual-analysis/same-as-expected-sample.json")
    (Summary.toObject <$> sameAsExpectedSample) fs.


(** ** [runJob] (lines 10-25 and 171-229) *)

Module JobConfig.
Record t := {
  materials : jsstring;
  currentLanguage : jsstring;
  expectedLanguage : jsstring;
  output : jsstring;
  aggregatedResultsFolder : jsstring }.
End JobConfig.

(** The keys of [fileData]. *)
Inductive key := es | pt.

#[global] Instance key_eq_dec : EqDecision key.
Proof. solve_decision. Defined.

Definition fileData (k : key) : JobConfig.t :=
  match k with
  | es =>
      {| JobConfig.materials := lit "materiais-studenta-marcados-como-pt.csv";
         JobConfig.currentLanguage := lit "pt";
         JobConfig.expectedLanguage := lit "es";
         JobConfig.output :=
           lit "results/results-materiais-studenta-marcados-como-pt.json";
         JobConfig.aggregatedResultsFolder :=
           lit "aggregated-results/materiais-studenta" |}
  | pt =>
      {| JobConfig.materials := lit "materiais-pd-marcados-como-es.csv";
         JobConfig.currentLanguage := lit "es";
         JobConfig.expectedLanguage := lit "pt";
         JobConfig.output :=
           lit "results/results-materiais-pd-marcados-como-es.json";
         JobConfig.aggregatedResultsFolder :=
           lit "aggregated-results/materiais-pd" |}
  end.

(** [Promise.all]: the values in the order of the promises; it rejects as
    soon as one of them rejects (the first in the array stands for the
    first in time), and stays pending while one is pending. *)
Fixpoint first_thrown {A} (l : list (outcome A)) : option exn :=
  match l with
  | [] => None
  | Thrown e :: _ => Some e
  | _ :: l => first_thrown l
  end.

Fixpoint all_returned {A} (l : list (outcome A)) : option (list A) :=
  match l with
  | [] => Some []
  | Returned a :: l => (fun r => a :: r) <$> all_returned l
  | _ :: _ => None
  end.

Definition Promise_all {A} (l : list (outcome A)) : outcome (list A) :=
  match first_thrown l with
  | Some e => Thrown e
  | None =>
      match all_returned l with
      | Some values => Returned values
      | None => OutOfFuel
      end
  end.

(** What a job leaves: the array of line 184, the buckets of line 210 and
    the files. *)
Record Run := {
  run_results : list ResultRecord.t;
  run_buckets : Buckets;
  run_files : files }.

Section Job.
(** [csv().fromFile(path)] *)
Variable csv_fromFile : jsstring -> reply (list SourceRow.t).
Variable client : jsstring -> reply jsstring.
Variable service : jsstring -> reply (list Candidate).
Variable langdetect_detect : jsstring -> list (jsstring * N).
Variable cmp : nat -> comparison.

(** The callback of lines 185-203. *)
Definition processFile (fuel : nat) (config : JobConfig.t)
    (file : SourceRow.t) : outcome ResultRecord.t :=
  textPreview ← getTextPreview client fuel (SourceRow.fileurl file);
  results ← detectLanguage service langdetect_detect textPreview;
  mret
    {| ResultRecord.id := SourceRow.id file;
       ResultRecord.name := SourceRow.name file;
       ResultRecord.fileurl := SourceRow.fileurl file;
       ResultRecord.currentLanguage := JobConfig.currentLanguage config;
       ResultRecord.expectedLanguage := JobConfig.expectedLanguage config;
       ResultRecord.newDetectedLanguage := new results;
       ResultRecord.oldDetectedLanguage := old results;
       ResultRecord.textPreviewLength := String_length textPreview;
       ResultRecord.textPreview := textPreview |}.

Definition runJob (fuel : nat) (k : key) (fs : files) : outcome Run :=
  let config := fileData k in
  files ← settle (csv_fromFile (JobConfig.materials config));
  results ← Promise_all (processFile fuel config <$> files);
  let fs :=
    writeFileSync (JobConfig.output config)
      (ResultRecord.toObject <$> results) fs in
  let '(buckets, fs) :=
    aggregateResults results (JobConfig.aggregatedResultsFolder config) fs in
  let fs :=
    getSamples cmp buckets (JobConfig.aggregatedResultsFolder config) fs in
  mret {| run_results := results; run_buckets := buckets; run_files := fs |}.
End Job.

(** ** [countManualAnalysisResults] (lines 231-285) *)

Record Counter := { correct : N; incorrect : N }.

Definition correct_incr (c : Counter) : Counter :=
  {| correct := correct c + 1; incorrect := incorrect c |}.

Definition incorrect_incr (c : Counter) : Counter :=
  {| correct := correct c; incorrect := incorrect c + 1 |}.

(** The object of lines 237-246. *)
Definition result_init : gmap string Counter :=
  {[ "newMethod"%string := {| correct := 0; incorrect := 0 |};
     "oldMethod"%string := {| correct := 0; incorrect := 0 |} ]}.

(** [result.method.field++]: reading a property of [undefined] throws. *)
Definition increment (method : string) (field : Counter -> Counter)
    (result : gmap string Counter) : outcome (gmap string Counter) :=
  match result !! method with
  | None => Thrown TypeError
  | Some counter => Returned (<[method := field counter]> result)
  end.

Definition Correto : value := Str (lit "Correto").

(** The body of the loop of lines 267-281. *)
Definition tally_item (item : object) (result : gmap string Counter)
    : outcome (gmap string Counter) :=
  result ←
    (if bool_decide (prop "newAnalysis" item = Some Correto)
     then increment "new" correct_incr result
     else increment "new" incorrect_incr result);
  if bool_decide (prop "oldAnalysis" item = Some Correto)
  then increment "old" correct_incr result
  else increment "old" incorrect_incr result.

Fixpoint tally_items (items : list object) (result : gmap string Counter)
    : outcome (gmap string Counter) :=
  match items with
  | [] => Returned result
  | item :: items =>
      result ← tally_item item result;
      tally_items items result
  end.

(** [JSON.parse(fs.readFileSync(path))] *)
Definition readJSON (fs : files) (path : jsstring) : outcome (list object) :=
  match fs !! path with
  | Some data => Returned data
  | None => Thrown (OtherError "ENOENT")
  end.

(** The callback of lines 248-282. *)
Definition tally_folder (fs : files) (folder : jsstring)
    (result : gmap string Counter) : outcome (gmap string Counter) :=
  differentThanExpectedAndCurrent ←
    readJSON fs
      (folder ++
         lit "/manual-analysis/different-than-expected-and-current-sample.json");
  sameAsCurrent ←
    readJSON fs (folder ++ lit "/manual-analysis/same-as-current-sample.json");
  sameAsExpected ←
    readJSON fs (folder ++ lit "/manual-analysis/same-as-expected-sample.json");
  let totalAnalysis :=
    differentThanExpectedAndCurrent ++ sameAsCurrent ++ sameAsExpected in
  tally_items totalAnalysis result.

Definition folders : list jsstring :=
  [ lit "aggregated-results/materiais-studenta";
    lit "aggregated-results/materiais-pd" ].

(** The value printed at line 284. *)
Definition countManualAnalysisResults (fs : files)
    : outcome (gmap string Counter) :=
  foldl (fun acc folder => result ← acc; tally_folder fs folder result)
    (Returned result_init) folders.


(** ** The two jobs on the event loop (lines 171-229 and 287-288)

    [runJob] is an [async] function: a call runs it up to its first
    [await] and returns; what follows an [await] runs later, in a task of
    its own, when the awaited promise has settled.  A task runs to its end
    before another starts.  The model keeps, for each job, the [await] it
    is suspended at, and lets a schedule (the order in which the
    environment settles the promises) choose the next task.  It covers the
    runs in which no request fails and no write is refused; for the writes
    that are refused see [runJob_sink]. *)

Inductive op :=
| ReadMaterials
| RowStep (row : nat)
| WriteFile (path : jsstring).

#[global] Instance op_eq_dec : EqDecision op.
Proof. solve_decision. Defined.

Abbreviation event := (key * op)%type.

Inductive jobState :=
| NotCalled
| AwaitMaterials
| AwaitAll (pending : list nat)
| Settled.

(** The writes of lines 207, 120-131 and 157-168, in order. *)
Definition job_writes (k : key) : list op :=
  let config := fileData k in
  let folder := JobConfig.aggregatedResultsFolder config in
  WriteFile <$>
    [ JobConfig.output config;
      folder ++ lit "/different-than-expected-and-current.json";
      folder ++ lit "/same-as-current.json";
      folder ++ lit "/same-as-expected.json";
      folder ++
        lit "/manual-analysis/different-than-expected-and-current-sample.json";
      folder ++ lit "/manual-analysis/same-as-current-sample.json";
      folder ++ lit "/manual-analysis/same-as-expected-sample.json" ].

(** The call [runJob(k)]: lines 172-181, up to the [await] of line 181. *)
Definition call (st : jobState) : jobState * list op :=
  match st with
  | NotCalled => (AwaitMaterials, [ReadMaterials])
  | _ => (st, [])
  end.

(** One task of job [k].  [awaits] gives, for each row of the materials,
    the number of [await]s that its callback (lines 185-203) passes after
    the first; [choice] is the row whose promise has settled.
    - after line 181: [files.map] calls the callback of every row, which
      runs up to its first [await] (line 44), then line 184 suspends;
    - a row passes an [await];
    - when no row is left, lines 206-228 run, with all the writes. *)
Definition resume (k : key) (awaits : list nat) (choice : nat)
    (st : jobState) : option (jobState * list op) :=
  match st with
  | NotCalled => None
  | AwaitMaterials =>
      Some (AwaitAll awaits, RowStep <$> seq 0 (length awaits))
  | AwaitAll pending =>
      if forallb (Nat.eqb 0) pending then Some (Settled, job_writes k)
      else
        match pending !! choice with
        | Some (S n) => Some (AwaitAll (<[choice := n]> pending), [RowStep choice])
        | _ => None
        end
  | Settled => None
  end.

Record machine := { job_pt : jobState; job_es : jobState }.

Definition job (k : key) (m : machine) : jobState :=
  match k with
  | pt => job_pt m
  | es => job_es m
  end.

Definition set_job (k : key) (st : jobState) (m : machine) : machine :=
  match k with
  | pt => {| job_pt := st; job_es := job_es m |}
  | es => {| job_pt := job_pt m; job_es := st |}
  end.

Definition tag (k : key) (ops : list op) : list event := pair k <$> ops.

(** The tasks that the schedule picks, one after the other; an entry that
    names no task that can run is passed over. *)
Fixpoint event_loop (awaits : key -> list nat) (schedule : list (key * nat))
    (m : machine) : machine * list event :=
  match schedule with
  | [] => (m, [])
  | (k, choice) :: schedule =>
      match resume k (awaits k) choice (job k m) with
      | Some (st, ops) =>
          let '(m', events) := event_loop awaits schedule (set_job k st m) in
          (m', tag k ops ++ events)
      | None => event_loop awaits schedule m
      end
  end.

(** Lines 287-288, then the event loop. *)
Definition main (awaits : key -> list nat) (schedule : list (key * nat))
    : machine * list event :=
  let m := {| job_pt := NotCalled; job_es := NotCalled |} in
  let '(st, ops_pt) := call (job pt m) in
  let m := set_job pt st m in
  let '(st, ops_es) := call (job es m) in
  let m := set_job es st m in
  let '(m, events) := event_loop awaits schedule m in
  (m, tag pt ops_pt ++ tag es ops_es ++ events).

(** A sequential run of the two jobs: every step of ["pt"] before every step
    of ["es"]. *)
Definition pt_before_es (events : list event) : Prop :=
  ∀ i j o1 o2,
    events !! i = Some (pt, o1) → events !! j = Some (es, o2) → (i < j)%nat.

Definition is_write (o : op) : bool :=
  match o with
  | WriteFile _ => true
  | _ => false
  end.


(** After a write of job [k], the job does nothing but write. *)
Definition writes_last (k : key) (events : list event) : Prop :=
  ∀ l1 l2 path o,
    events = l1 ++ (k, WriteFile path) :: l2 → (k, o) ∈ l2 → is_write o = true.

(** One row per job, which passes three [await]s; the schedule lets
    ["pt"] run to its end before it resumes ["es"]. *)
Definition awaitsA (k : key) : list nat := [3%nat].

Definition scheduleA : list (key * nat) :=
  replicate 5 (pt, O) ++ replicate 5 (es, O).

(** A schedule that settles the promises of the two jobs in turn. *)
Definition scheduleB : list (key * nat) :=
  concat (replicate 5 [(es, O); (pt, O)]).

(** ** Scenarios

    One document ["f1"] with the two pages ["Hello "] and ["World"]; a
    detection service that answers ["en"], and a legacy detector that
    guesses ["en"]. *)

Definition storageA (objectKey : jsstring) : reply jsstring :=
  if bool_decide (objectKey = lit "TextPreview/f1/1.txt")
  then Body (lit "Hello ")
  else if bool_decide (objectKey = lit "TextPreview/f1/2.txt")
  then Body (lit "World")
  else Raise (ServiceException (lit "NoSuchKey")).

Definition csvA (path : jsstring) : reply (list SourceRow.t) :=
  Body [ {| SourceRow.id := lit "1"; SourceRow.fileurl := lit "f1";
            SourceRow.name := lit "Doc1" |} ].

Definition serviceA (text : jsstring) : reply (list Candidate) :=
  Body [ {| codex := lit "en" |} ].

Definition langdetectA (text : jsstring) : list (jsstring * N) :=
  [ (lit "en", 1) ].

(** A storage whose every page holds blanks and line breaks only. *)
Definition storageBlank (objectKey : jsstring) : reply jsstring :=
  Body [SP; CR; LF; TAB; SP].

(** A storage that is out of order. *)
Definition storageDown (objectKey : jsstring) : reply jsstring :=
  Raise (ServiceException (lit "AccessDenied")).

(** A record is in one of the three buckets. *)
Definition in_buckets (r : Summary.t) (b : Buckets) : Prop :=
  r ∈ differentResults b ∨ r ∈ sameAsCurrent b ∨ r ∈ sameAsExpected b.

(** The record of the scenario, for a job with the labels of ["es"]. *)
Definition recordA (detected : jsstring) (preview : jsstring)
    : ResultRecord.t :=
  {| ResultRecord.id := lit "1";
     ResultRecord.name := lit "Doc1";
     ResultRecord.fileurl := lit "f1";
     ResultRecord.currentLanguage := lit "pt";
     ResultRecord.expectedLanguage := lit "es";
     ResultRecord.newDetectedLanguage := detected;
     ResultRecord.oldDetectedLanguage := lit "en";
     ResultRecord.textPreviewLength := String_length preview;
     ResultRecord.textPreview := preview |}.

(** Sample files after the manual analysis: one annotated record in the
    first file, the others empty. *)
Definition annotatedA : object :=
  Summary.toObject (summarize (recordA (lit "en") (lit "HelloWorld"))) ++
  [ ("newAnalysis", Str (lit "Correto"));
    ("oldAnalysis", Str (lit "Incorreto")) ]%string.

Definition filesManual : files :=
  foldr
    (fun folder fs =>
       <[folder ++
           lit "/manual-analysis/different-than-expected-and-current-sample.json"
         := []]>
         (<[folder ++ lit "/manual-analysis/same-as-current-sample.json"
            := []]>
            (<[folder ++ lit "/manual-analysis/same-as-expected-sample.json"
               := []]> fs)))
    ∅ folders.

Definition filesAnnotated : files :=
  <[lit "aggregated-results/materiais-studenta/manual-analysis/different-than-expected-and-current-sample.json"
    := [annotatedA]]> filesManual.

(** The paths that [aggregateResults], [getSamples] and a job write. *)
Definition aggregated_files (outputFolder : jsstring) : list jsstring :=
  [ outputFolder ++ lit "/different-than-expected-and-current.json";
    outputFolder ++ lit "/same-as-current.json";
    outputFolder ++ lit "/same-as-expected.json" ].

Definition sample_files (outputFolder : jsstring) : list jsstring :=
  [ outputFolder ++
      lit "/manual-analysis/different-than-expected-and-current-sample.json";
    outputFolder ++ lit "/manual-analysis/same-as-current-sample.json";
    outputFolder ++ lit "/manual-analysis/same-as-expected-sample.json" ].

Definition job_files (k : key) : list jsstring :=
  JobConfig.output (fileData k) ::
  aggregated_files (JobConfig.aggregatedResultsFolder (fileData k)) ++
  sample_files (JobConfig.aggregatedResultsFolder (fileData k)).

(** Number of the records whose verdict under [k] is ["Correto"]. *)
Fixpoint count_correct (k : string) (items : list object) : N :=
  match items with
  | [] => 0
  | item :: items =>
      (if bool_decide (prop k item = Some Correto) then 1 else 0) +
      count_correct k items
  end.

(** The record that the callback of lines 185-203 builds for a row. *)
Definition record_of_row (client : jsstring → reply jsstring) (fuel : nat)
    (config : JobConfig.t) (row : SourceRow.t) (r : ResultRecord.t) : Prop :=
  ResultRecord.id r = SourceRow.id row ∧
  ResultRecord.name r = SourceRow.name row ∧
  ResultRecord.fileurl r = SourceRow.fileurl row ∧
  ResultRecord.currentLanguage r = JobConfig.currentLanguage config ∧
  ResultRecord.expectedLanguage r = JobConfig.expectedLanguage config ∧
  getTextPreview client fuel (SourceRow.fileurl row) =
    Returned (ResultRecord.textPreview r) ∧
  ResultRecord.textPreviewLength r =
    String_length (ResultRecord.textPreview r) ∧
  ResultRecord.textPreviewLength r <= MAX_TEXT_LENGTH.

(** A storage whose every page is one word of 24010 letters. *)
Definition longPage : jsstring := replicate (N.to_nat 24010) 97.

Definition storageLong (objectKey : jsstring) : reply jsstring :=
  Body longPage.

(** [s] has the six properties of the object of lines 95-102, with the
    values that the record [r] has for them. *)
Definition summary_of (s : Summary.t) (r : ResultRecord.t) : Prop :=
  Summary.id s = ResultRecord.id r ∧
  Summary.name s = ResultRecord.name r ∧
  Summary.currentLanguage s = ResultRecord.currentLanguage r ∧
  Summary.expectedLanguage s = ResultRecord.expectedLanguage r ∧
  Summary.newDetectedLanguage s = ResultRecord.newDetectedLanguage r ∧
  Summary.oldDetectedLanguage s = ResultRecord.oldDetectedLanguage r.

(** The last pattern matches at no index of the text. *)
Fixpoint url_free (s : jsstring) : Prop :=
  match s with
  | [] => True
  | _ :: t => re_url false s = None ∧ url_free t
  end.

(** ** Writes that the file system can refuse

    [fs.writeFileSync] throws when the file system refuses the path (a
    missing folder, for one: the program creates none).  [sink path] is
    what the call throws for [path], if anything.  A write that throws
    ends the function that makes it, with the files written so far left
    in place.  [aggregateResults], [getSamples] and [runJob] above are
    these functions on a file system that accepts every path. *)

Section Sink.
Variable sink : jsstring → option exn.

(** The writes in order, up to the first that throws: the files, and the
    exception if there is one. *)
Fixpoint write_each (writes : list (jsstring * list object)) (fs : files)
    : files * option exn :=
  match writes with
  | [] => (fs, None)
  | (path, data) :: writes =>
      match sink path with
      | Some e => (fs, Some e)
      | None => write_each writes (writeFileSync path data fs)
      end
  end.

(** Lines 120-131. *)
Definition bucket_writes (b : Buckets) (outputFolder : jsstring)
    : list (jsstring * list object) :=
  [ (outputFolder ++ lit "/different-than-expected-and-current.json",
     Summary.toObject <$> differentResults b);
    (outputFolder ++ lit "/same-as-current.json",
     Summary.toObject <$> sameAsCurrent b);
    (outputFolder ++ lit "/same-as-expected.json",
     Summary.toObject <$> sameAsExpected b) ].

Definition aggregateResults_sink (results : list ResultRecord.t)
    (outputFolder : jsstring) (fs : files) : files * outcome Buckets :=
  let b := classify results in
  match write_each (bucket_writes b outputFolder) fs with
  | (fs, Some e) => (fs, Thrown e)
  | (fs, None) => (fs, Returned b)
  end.

(** Lines 153-168: the three samples are drawn, then written. *)
Definition sample_writes (cmp : nat → comparison) (b : Buckets)
    (outputFolder : jsstring) : list (jsstring * list object) :=
  let '(differentResultsSample, calls) :=
    getSample cmp 0 (differentResults b) in
  let '(sameAsCurrentSample, calls) := getSample cmp calls (sameAsCurrent b) in
  let '(sameAsExpectedSample, _) := getSample cmp calls (sameAsExpected b) in
  [ (outputFolder ++
       lit "/manual-analysis/different-than-expected-and-current-sample.json",
     Summary.toObject <$> differentResultsSample);
    (outputFolder ++ lit "/manual-analysis/same-as-current-sample.json",
     Summary.toObject <$> sameAsCurrentSample);
    (outputFolder ++ lit "/manual-analysis/same-as-expected-sample.json",
     Summary.toObject <$> sameAsExpectedSample) ].

Definition getSamples_sink (cmp : nat → comparison) (b : Buckets)
    (outputFolder : jsstring) (fs : files) : files * option exn :=
  write_each (sample_writes cmp b outputFolder) fs.

(** Lines 171-229. *)
Definition runJob_sink
    (csv_fromFile : jsstring → reply (list SourceRow.t))
    (client : jsstring → reply jsstring)
    (service : jsstring → reply (list Candidate))
    (langdetect_detect : jsstring → list (jsstring * N))
    (cmp : nat → comparison) (fuel : nat) (k : key) (fs : files)
    : files * outcome Run :=
  let config := fileData k in
  match
    files ← settle (csv_fromFile (JobConfig.materials config));
    Promise_all
      (processFile client service langdetect_detect fuel config <$> files)
  with
  | Thrown e => (fs, Thrown e)
  | OutOfFuel => (fs, OutOfFuel)
  | Returned results =>
      match
        write_each
          [(JobConfig.output config, ResultRecord.toObject <$> results)] fs
      with
      | (fs, Some e) => (fs, Thrown e)
      | (fs, None) =>
          match
            aggregateResults_sink results
              (JobConfig.aggregatedResultsFolder config) fs
          with
          | (fs, Thrown e) => (fs, Thrown e)
          | (fs, OutOfFuel) => (fs, OutOfFuel)
          | (fs, Returned buckets) =>
              match
                getSamples_sink cmp buckets
                  (JobConfig.aggregatedResultsFolder config) fs
              with
              | (fs, Some e) => (fs, Thrown e)
              | (fs, None) =>
                  (fs, Returned {| run_results := results;
                                   run_buckets := buckets;
                                   run_files := fs |})
              end
          end
      end
  end.
End Sink.

(** All the writes of a job, in the order of the source. *)
Definition job_writes_data (cmp : nat → comparison) (k : key)
    (results : list ResultRecord.t) : list (jsstring * list object) :=
  (JobConfig.output (fileData k), ResultRecord.toObject <$> results) ::
  bucket_writes (classify results)
    (JobConfig.aggregatedResultsFolder (fileData k)) ++
  sample_writes cmp (classify results)
    (JobConfig.aggregatedResultsFolder (fileData k)).

(** The files after a list of writes that all succeed. *)
Definition written (writes : list (jsstring * list object)) (fs : files)
    : files :=
  foldl (fun fs w => writeFileSync w.1 w.2 fs) fs writes.

(** Lines 181-204: the records of a job, before anything is written. *)
Definition gather (csv_fromFile : jsstring → reply (list SourceRow.t))
    (client : jsstring → reply jsstring)
    (service : jsstring → reply (list Candidate))
    (langdetect_detect : jsstring → list (jsstring * N))
    (fuel : nat) (k : key) : outcome (list ResultRecord.t) :=
  files ← settle (csv_fromFile (JobConfig.materials (fileData k)));
  Promise_all
    (processFile client service langdetect_detect fuel (fileData k) <$> files).

(** A file system that refuses the paths of [paths] and accepts every
    other. *)
Definition refuses (paths : list jsstring) (path : jsstring) : option exn :=
  if bool_decide (path ∈ paths) then Some (OtherError "ENOENT") else None.

(** Materials that cannot be read. *)
Definition csvDown (path : jsstring) : reply (list SourceRow.t) :=
  Raise (OtherError "ENOENT").


(** * Properties *)

(** ** The scan and the four patterns *)

Lemma scan_skip m rep : ∀ k s,
  (k <= length s)%nat →
  scan m rep false k s = scan m rep false 0 (drop k s).
Proof.
  induction k as [|k IH]; intros s Hk; [done|].
  destruct s as [|c t]; simpl in *; [lia|]. apply IH. lia.
Qed.

Lemma scan_cons m rep b c t :
  scan m rep b 0 (c :: t) =
  match m b (c :: t) with
  | Some (S k) => rep ++ scan m rep false k t
  | Some O => rep ++ c :: scan m rep false 0 t
  | None => c :: scan m rep false 0 t
  end.
Proof. reflexivity. Qed.

Lemma spaces_le s : (spaces s <= length s)%nat.
Proof.
  induction s as [|c t IH]; simpl; [done|]. destruct (c =? SP); lia.
Qed.

Lemma spaces_starts s : spaces s = O ↔ starts_with_space s = false.
Proof.
  destruct s as [|c t]; simpl; [done|]. by destruct (c =? SP).
Qed.

Lemma squeeze_run s :
  spaces s ≠ O → squeeze s = SP :: squeeze (drop (spaces s) s).
Proof.
  induction s as [|c t IH]; simpl; [done|].
  destruct (N.eqb_spec c SP) as [->|]; [|done]. intros _. simpl.
  destruct (starts_with_space t) eqn:Hs.
  - apply IH. rewrite spaces_starts. congruence.
  - apply spaces_starts in Hs as ->. done.
Qed.

(** [/ +/g] with [" "]: a run of spaces becomes one space. *)
Lemma replaceAll_spaces_squeeze b s :
  scan re_spaces [SP] b 0 s = squeeze s.
Proof.
  remember (length s) as n eqn:Hn. revert s b Hn.
  induction (lt_wf n) as [n _ IH]. intros s b ->.
  destruct s as [|c t]; [done|].
  simpl scan. unfold re_spaces.
  destruct (spaces (c :: t)) as [|k] eqn:Hk.
  - simpl in Hk |- *. destruct (c =? SP); [done|]. simpl.
    f_equal. by apply (IH (length t)); [simpl; lia|].
  - pose proof (spaces_le (c :: t)) as Hle. rewrite Hk in Hle. simpl in Hle.
    rewrite squeeze_run, Hk by lia. simpl. f_equal.
    rewrite (scan_skip _ _ k) by lia.
    apply (IH (length (drop k t))); [|done].
    rewrite length_drop. simpl. lia.
Qed.

Lemma re_edges_inner c t :
  re_edges false (c :: t) =
  if blank (c :: t) then Some (length (c :: t)) else None.
Proof.
  unfold re_edges, blank. cbn [andb].
  destruct (Nat.eqb_spec (spaces (c :: t)) (length (c :: t))) as [->|]; [done|].
  by rewrite andb_false_r.
Qed.

Lemma re_edges_start s :
  re_edges true s =
  match spaces s with
  | O => None
  | n => Some n
  end.
Proof.
  unfold re_edges. cbn [andb]. by destruct (spaces s).
Qed.

Lemma replaceAll_edges_inner s : scan re_edges [] false 0 s = trim_end s.
Proof.
  induction s as [|c t IH]; [done|].
  rewrite scan_cons, re_edges_inner. cbn [trim_end].
  destruct (blank (c :: t)).
  - simpl. rewrite (scan_skip _ _ (length t)) by lia. by rewrite drop_all.
  - simpl. by rewrite IH.
Qed.

(** [/(^ +| +$)/g] with [""]: the spaces at both ends go. *)
Lemma replaceAll_edges_trim s : replaceAll re_edges [] s = trim s.
Proof.
  unfold replaceAll, trim. destruct s as [|c t]; [done|].
  rewrite scan_cons, re_edges_start.
  destruct (spaces (c :: t)) as [|k] eqn:Hk.
  - simpl. rewrite replaceAll_edges_inner.
    unfold blank. rewrite Hk. done.
  - pose proof (spaces_le (c :: t)) as Hle. rewrite Hk in Hle. simpl in Hle.
    simpl. rewrite (scan_skip _ _ k) by lia. apply replaceAll_edges_inner.
Qed.

Lemma optional_controls x s :
  control x = true →
  controls s = (optional x s + controls (drop (optional x s) s))%nat.
Proof.
  intros Hx. destruct s as [|c t]; simpl; [done|].
  destruct (N.eqb_spec c x) as [->|]; [|done]. by rewrite Hx.
Qed.

Lemma once_controls s :
  controls s = (crlftab_once s + controls (drop (crlftab_once s) s))%nat.
Proof.
  unfold crlftab_once.
  rewrite (optional_controls CR s) at 1 by done.
  rewrite (optional_controls LF (drop _ s)) at 1 by done.
  rewrite (optional_controls TAB (drop _ (drop _ s))) at 1 by done.
  rewrite !drop_drop. lia.
Qed.

Lemma once_none s : crlftab_once s = O → controls s = O.
Proof.
  unfold crlftab_once. destruct s as [|c t]; [done|]. simpl. unfold control.
  destruct (N.eqb_spec c CR) as [->|]; [simpl; lia|].
  simpl. destruct (N.eqb_spec c LF) as [->|]; [simpl; lia|].
  simpl. destruct (N.eqb_spec c TAB) as [->|]; [simpl; lia|]. done.
Qed.

Lemma more_controls : ∀ fuel s,
  (length s <= fuel)%nat → crlftab_more fuel s = controls s.
Proof.
  induction fuel as [|fuel IH]; intros s Hs.
  - destruct s; [done|simpl in Hs; lia].
  - simpl. destruct (crlftab_once s) as [|n] eqn:Hn.
    + symmetry. by apply once_none.
    + rewrite IH by (rewrite length_drop; lia).
      rewrite (once_controls s), Hn. done.
Qed.

(** [(\r?\n?\t?)+] matches the longest run of [\r], [\n] and [\t]. *)
Lemma re_crlftab_controls b s : re_crlftab b s = Some (controls s).
Proof.
  unfold re_crlftab. rewrite more_controls by (rewrite length_drop; lia).
  by rewrite <- once_controls.
Qed.

Lemma controls_le s : (controls s <= length s)%nat.
Proof.
  induction s as [|c t IH]; simpl; [done|]. destruct (control c); lia.
Qed.

Lemma strip_controls_run s :
  strip_controls (drop (controls s) s) = strip_controls s.
Proof.
  induction s as [|c t IH]; simpl; [done|].
  destruct (control c) eqn:Hc; simpl; [done|]. by rewrite Hc.
Qed.

(** [/(\r?\n?\t?)+/g] with [""]: every [\r], [\n] and [\t] goes. *)
Lemma replaceAll_crlftab_strip b s :
  scan re_crlftab [] b 0 s = strip_controls s.
Proof.
  remember (length s) as n eqn:Hn. revert s b Hn.
  induction (lt_wf n) as [n _ IH]. intros s b ->.
  destruct s as [|c t]; [done|].
  rewrite scan_cons, re_crlftab_controls.
  destruct (controls (c :: t)) as [|k] eqn:Hk.
  - simpl in Hk |- *. destruct (control c); [done|]. simpl.
    f_equal. by apply (IH (length t)); [simpl; lia|].
  - pose proof (controls_le (c :: t)) as Hle. rewrite Hk in Hle. simpl in Hle.
    rewrite <- (strip_controls_run (c :: t)), Hk. simpl.
    rewrite (scan_skip _ _ k) by lia.
    apply (IH (length (drop k t))); [|done].
    rewrite length_drop. simpl. lia.
Qed.

Lemma strip_controls_id s :
  Forall (fun c => control c = false) s → strip_controls s = s.
Proof.
  induction 1 as [|c t Hc _ IH]; simpl; [done|]. by rewrite Hc, IH.
Qed.

(** [/https?.*?(?= |$)/g] finds nothing where [http] does not occur. *)
Lemma replaceAll_url_id b s : no_url s → scan re_url [] b 0 s = s.
Proof.
  revert b. induction s as [|c t IH]; intros b; [done|].
  intros [Hc Ht]. rewrite scan_cons. unfold re_url at 1. rewrite Hc.
  by rewrite IH.
Qed.

(** *** The trimmed, squeezed text *)

Lemma squeeze_single_spaced s : single_spaced (squeeze s).
Proof.
  induction s as [|c t IH]; simpl; [done|].
  destruct (N.eqb_spec c SP) as [->|Hc]; simpl.
  - destruct (starts_with_space t) eqn:Hs; [done|]. simpl. split; [|done].
    destruct t as [|c' t']; [done|]. simpl in Hs |- *. by rewrite Hs.
  - split; [|done]. by apply N.eqb_neq in Hc as ->.
Qed.

Lemma single_spaced_squeeze s : single_spaced s → squeeze s = s.
Proof.
  induction s as [|c t IH]; simpl; [done|].
  intros [-> Ht]. by rewrite IH.
Qed.

Lemma single_spaced_drop n s : single_spaced s → single_spaced (drop n s).
Proof.
  revert s. induction n as [|n IH]; intros [|c t]; simpl; try done.
  intros [_ Ht]. by apply IH.
Qed.

Lemma blank_nil_iff s : trim_end s = [] ↔ blank s = true.
Proof.
  destruct s as [|c t]; [done|]. cbn [trim_end].
  by destruct (blank (c :: t)).
Qed.

Lemma blank_cons c t : blank (c :: t) = (c =? SP) && blank t.
Proof.
  unfold blank. simpl. destruct (c =? SP); [done|]. done.
Qed.

Lemma trim_end_starts s :
  starts_with_space (trim_end s) = true → starts_with_space s = true.
Proof.
  destruct s as [|c t]; [done|]. cbn [trim_end].
  by destruct (blank (c :: t)).
Qed.

Lemma single_spaced_trim_end s : single_spaced s → single_spaced (trim_end s).
Proof.
  induction s as [|c t IH]; [done|]. cbn [trim_end].
  destruct (blank (c :: t)); [done|]. simpl. intros [Hc Ht].
  split; [|by apply IH].
  destruct (c =? SP); [|done]. simpl in *.
  destruct (starts_with_space (trim_end t)) eqn:Hs; [|done].
  apply trim_end_starts in Hs. congruence.
Qed.

Lemma trim_end_blank s : blank (trim_end s) = true → trim_end s = [].
Proof.
  induction s as [|c t IH]; [done|]. cbn [trim_end].
  destruct (blank (c :: t)) eqn:Hb; [done|].
  rewrite blank_cons. intros [Hc Ht]%andb_true_iff.
  apply IH, blank_nil_iff in Ht. rewrite blank_cons, Hc, Ht in Hb. done.
Qed.

Lemma trim_end_idemp s : trim_end (trim_end s) = trim_end s.
Proof.
  induction s as [|c t IH]; [done|]. cbn [trim_end].
  destruct (blank (c :: t)) eqn:Hb; [done|]. cbn [trim_end].
  destruct (blank (c :: trim_end t)) eqn:Hb'; [|by rewrite IH].
  rewrite blank_cons in Hb'. apply andb_true_iff in Hb' as [Hc Ht].
  apply trim_end_blank, blank_nil_iff in Ht.
  rewrite blank_cons, Hc, Ht in Hb. done.
Qed.

Lemma spaces_drop s : spaces (drop (spaces s) s) = O.
Proof.
  induction s as [|c t IH]; simpl; [done|].
  destruct (c =? SP) eqn:Hc; simpl; [done|]. by rewrite Hc.
Qed.

Lemma spaces_trim_end s : spaces s = O → spaces (trim_end s) = O.
Proof.
  destruct s as [|c t]; [done|]. cbn [trim_end].
  destruct (blank (c :: t)); [done|]. simpl. by destruct (c =? SP).
Qed.

Lemma trim_idemp s : trim (trim s) = trim s.
Proof.
  unfold trim. rewrite (spaces_trim_end _ (spaces_drop s)).
  simpl. apply trim_end_idemp.
Qed.


(** *** Texts without line breaks, tabs and addresses *)

Lemma strip_prefix_Some p : ∀ s r, strip_prefix p s = Some r ↔ s = p ++ r.
Proof.
  induction p as [|a p IH]; intros s r; simpl.
  - split; [by intros [= ->]|by intros ->].
  - destruct s as [|c t]; [done|].
    destruct (N.eqb_spec c a) as [->|Hc].
    + rewrite IH. split; [by intros ->|by intros [= ->]].
    + split; [done|]. intros [= -> _]. done.
Qed.

(** [no_url] says that [http] does not occur. *)
Lemma no_url_iff s : no_url s ↔ ∀ l1 l2, s ≠ l1 ++ lit "http" ++ l2.
Proof.
  induction s as [|c t IH].
  - split; [|done]. intros _ [|??] l2; discriminate.
  - cbn [no_url]. rewrite IH. split.
    + intros [Hc Ht] [|c' l1] l2 Heq.
      * apply (strip_prefix_Some (lit "http")) in Heq. congruence.
      * injection Heq as -> ->. by apply (Ht l1 l2).
    + intros H. split.
      * destruct (strip_prefix (lit "http") (c :: t)) as [r|] eqn:Hr; [|done].
        apply strip_prefix_Some in Hr. by destruct (H [] r).
      * intros l1 l2 ->. by apply (H (c :: l1) l2).
Qed.

Lemma Forall_squeeze (P : N → Prop) s : Forall P s → Forall P (squeeze s).
Proof.
  induction 1 as [|c t Hc _ IH]; simpl; [done|].
  destruct ((c =? SP) && starts_with_space t); [done|]. by constructor.
Qed.

Lemma Forall_trim_end (P : N → Prop) s : Forall P s → Forall P (trim_end s).
Proof.
  induction 1 as [|c t Hc _ IH]; [done|]. cbn [trim_end].
  destruct (blank (c :: t)); [done|]. by constructor.
Qed.

Lemma no_url_drop n : ∀ s, no_url s → no_url (drop n s).
Proof.
  induction n as [|n IH]; intros [|c t]; simpl; try done.
  intros [_ Ht]. by apply IH.
Qed.

Lemma trim_end_prefix s : ∃ r, s = trim_end s ++ r.
Proof.
  induction s as [|c t [r IH]]; [by exists []|]. cbn [trim_end].
  destruct (blank (c :: t)); [by exists (c :: t)|].
  exists r. simpl. by rewrite <- IH.
Qed.

Lemma strip_prefix_app p : ∀ x y r,
  strip_prefix p x = Some r → strip_prefix p (x ++ y) = Some (r ++ y).
Proof.
  intros x y r ->%strip_prefix_Some. apply strip_prefix_Some.
  by rewrite app_assoc.
Qed.

Lemma no_url_app_l x y : no_url (x ++ y) → no_url x.
Proof.
  induction x as [|c x IH]; [done|]. simpl app. cbn [no_url].
  intros [Hc Hx]. split; [|by apply IH].
  destruct (strip_prefix (lit "http") (c :: x)) as [r|] eqn:Hr; [|done].
  apply (strip_prefix_app _ _ y) in Hr. simpl app in Hr. congruence.
Qed.

Lemma no_url_trim_end s : no_url s → no_url (trim_end s).
Proof.
  destruct (trim_end_prefix s) as [r Hr]. rewrite Hr at 1.
  apply no_url_app_l.
Qed.

(** A word found after the squeeze was there before it. *)
Lemma strip_prefix_squeeze p : ∀ s r,
  Forall (fun a => a ≠ SP) p →
  strip_prefix p (squeeze s) = Some r →
  ∃ r', strip_prefix p s = Some r'.
Proof.
  induction p as [|a p IH]; intros s r Hp; [by eauto|].
  apply Forall_cons in Hp as [Ha Hp].
  destruct s as [|c t]; [done|]. cbn [squeeze].
  destruct (N.eqb_spec c SP) as [->|Hc]; cbn [andb].
  - destruct (starts_with_space t) eqn:Hs.
    + rewrite squeeze_run by (rewrite spaces_starts; congruence).
      cbn [strip_prefix]. destruct (N.eqb_spec SP a); [congruence|done].
    + cbn [strip_prefix]. destruct (N.eqb_spec SP a); [congruence|done].
  - cbn [strip_prefix]. destruct (c =? a); [|done]. by apply IH.
Qed.

Lemma no_url_squeeze s : no_url s → no_url (squeeze s).
Proof.
  induction s as [|c t IH]; [done|]. intros [Hc Ht].
  destruct (strip_prefix (lit "http") (squeeze (c :: t))) as [r|] eqn:Hr.
  - apply strip_prefix_squeeze in Hr as [r' Hr']; [congruence|].
    vm_compute. repeat constructor; discriminate.
  - revert Hr. cbn [squeeze].
    destruct ((c =? SP) && starts_with_space t); [by intros; apply IH|].
    intros Hr. split; [done|by apply IH].
Qed.

Lemma plain_trim_squeeze s : plain s → plain (trim (squeeze s)).
Proof.
  intros [Hc Hu]. split.
  - apply Forall_trim_end, Forall_drop, Forall_squeeze, Hc.
  - apply no_url_trim_end, no_url_drop, no_url_squeeze, Hu.
Qed.

(** On such a text only the first two steps of the chain act. *)
Lemma normalize_plain s : plain s → normalize s = trim (squeeze s).
Proof.
  intros Hs. apply plain_trim_squeeze in Hs as [Hc Hu].
  unfold normalize, replaceAll at 1 2 4.
  rewrite replaceAll_spaces_squeeze, replaceAll_edges_trim.
  rewrite replaceAll_crlftab_strip, strip_controls_id by done.
  by apply replaceAll_url_id.
Qed.

Lemma trim_squeeze_fixed s :
  trim (squeeze (trim (squeeze s))) = trim (squeeze s).
Proof.
  rewrite (single_spaced_squeeze (trim (squeeze s))).
  - apply trim_idemp.
  - apply single_spaced_trim_end, single_spaced_drop, squeeze_single_spaced.
Qed.


Lemma squeeze_word s : Forall (fun c => c ≠ SP) s → squeeze s = s.
Proof.
  induction 1 as [|c t Hc _ IH]; simpl; [done|].
  apply N.eqb_neq in Hc as ->. simpl. by rewrite IH.
Qed.

Lemma trim_end_word s : Forall (fun c => c ≠ SP) s → trim_end s = s.
Proof.
  induction 1 as [|c t Hc _ IH]; [done|].
  cbn [trim_end]. rewrite blank_cons.
  apply N.eqb_neq in Hc as ->. simpl. by rewrite IH.
Qed.

Lemma spaces_word s : Forall (fun c => c ≠ SP) s → spaces s = O.
Proof.
  destruct 1 as [|c t Hc _]; simpl; [done|].
  by apply N.eqb_neq in Hc as ->.
Qed.

(** A text without space, line break, tab and [h] is a fixed point. *)
Lemma normalize_word s :
  Forall (fun c => c ≠ SP ∧ control c = false ∧ c ≠ 104) s →
  normalize s = s.
Proof.
  intros Hs.
  assert (Forall (fun c => c ≠ SP) s) as Hsp.
  { eapply Forall_impl; [exact Hs|]. by intros c (? & _ & _). }
  rewrite normalize_plain.
  - unfold trim. rewrite (squeeze_word s Hsp), (spaces_word s Hsp).
    simpl. by apply trim_end_word.
  - split.
    + eapply Forall_impl; [exact Hs|]. by intros c (_ & ? & _).
    + clear Hsp. induction Hs as [|c t (_ & _ & Hc) _ IH]; [done|].
      split; [|done]. change (lit "http") with [104; 116; 116; 112].
      cbn [strip_prefix]. by apply N.eqb_neq in Hc as ->.
Qed.

Lemma normalize_longPage : normalize longPage = longPage.
Proof.
  apply normalize_word. unfold longPage.
  apply Forall_replicate. split_and!; [| |]; by vm_compute.
Qed.

(** ** The preview loop *)

Lemma slice0_length (n : N) (s : jsstring) :
  String_length (slice0 n s) = N.min n (String_length s).
Proof.
  unfold String_length, slice0. rewrite length_take. lia.
Qed.

Lemma slice0_short (n : N) (s : jsstring) :
  String_length s <= n → slice0 n s = s.
Proof.
  unfold String_length, slice0. intros H. apply take_ge. lia.
Qed.

Lemma loop_turn_Next client fp page tp page' tp' :
  loop_turn client fp page tp = Next page' tp' →
  String_length tp < MAX_TEXT_LENGTH ∧ page' = page + 1 ∧
  ∃ str, client (pageKey fp page) = Body str ∧ tp' = tp ++ normalize str.
Proof.
  unfold loop_turn. destruct (N.ltb_spec (String_length tp) MAX_TEXT_LENGTH);
    [|discriminate].
  destruct (client (pageKey fp page)) as [str|e].
  - intros [= <- <-]. eauto.
  - case_bool_decide; discriminate.
Qed.

Lemma loop_turn_Break client fp page tp tp' :
  loop_turn client fp page tp = Break tp' →
  tp' = tp ∧ String_length tp < MAX_TEXT_LENGTH ∧
  ∃ e, client (pageKey fp page) = Raise e ∧ Code e = Some (lit "NoSuchKey").
Proof.
  unfold loop_turn. destruct (N.ltb_spec (String_length tp) MAX_TEXT_LENGTH);
    [|discriminate].
  destruct (client (pageKey fp page)) as [str|e]; [discriminate|].
  case_bool_decide; [|discriminate]. intros [= <-]. eauto.
Qed.

Lemma loop_turn_Exit client fp page tp tp' :
  loop_turn client fp page tp = Exit tp' →
  tp' = tp ∧ MAX_TEXT_LENGTH <= String_length tp.
Proof.
  unfold loop_turn. destruct (N.ltb_spec (String_length tp) MAX_TEXT_LENGTH).
  - destruct (client (pageKey fp page)); [discriminate|].
    case_bool_decide; discriminate.
  - intros [= <-]. done.
Qed.

Lemma loop_turn_Rethrow client fp page tp e :
  loop_turn client fp page tp = Rethrow e →
  String_length tp < MAX_TEXT_LENGTH ∧
  client (pageKey fp page) = Raise e ∧ Code e ≠ Some (lit "NoSuchKey").
Proof.
  unfold loop_turn. destruct (N.ltb_spec (String_length tp) MAX_TEXT_LENGTH);
    [|discriminate].
  destruct (client (pageKey fp page)) as [str|e']; [discriminate|].
  case_bool_decide; [discriminate|]. intros [= <-]. done.
Qed.

(** A returned preview is the truncation of the text of the first [n]
    pages; each of them was requested with an accumulator below the bound;
    and when the loop was left below the bound, the next page is missing. *)
Lemma loop_Returned client fuel fp page tp s :
  getTextPreview_loop client fuel fp page tp = Returned s →
  ∃ n rest,
    pages_text client n fp page = Some rest ∧
    s = slice0 MAX_TEXT_LENGTH (tp ++ rest) ∧
    (∀ k, (k < n)%nat → ∃ r, pages_text client k fp page = Some r ∧
        String_length (tp ++ r) < MAX_TEXT_LENGTH) ∧
    (String_length (tp ++ rest) < MAX_TEXT_LENGTH →
     ∃ e, client (pageKey fp (page + N.of_nat n)) = Raise e ∧
          Code e = Some (lit "NoSuchKey")).
Proof.
  revert page tp. induction fuel as [|fuel IH]; intros page tp; [discriminate|].
  simpl. destruct (loop_turn client fp page tp) as [p' t'|t'|t'|e] eqn:Hturn.
  - apply loop_turn_Next in Hturn as (Hlt & -> & str & Hstr & ->).
    intros (n & rest & Hp & -> & Hk & Hmiss)%IH.
    exists (S n), (normalize str ++ rest). simpl. rewrite Hstr, Hp. simpl.
    rewrite <- app_assoc in *. split_and!; [done|done| |].
    + intros [|k] Hlt'.
      * exists []. rewrite app_nil_r. done.
      * destruct (Hk k) as (r & Hr & Hlen); [lia|].
        exists (normalize str ++ r). simpl. rewrite Hstr, Hr.
        rewrite <- app_assoc in Hlen. done.
    + intros Hs. destruct (Hmiss Hs) as (e & He & Hc). exists e.
      split; [|done]. rewrite <- He.
      by replace (page + N.of_nat (S n)) with (page + 1 + N.of_nat n) by lia.
  - apply loop_turn_Break in Hturn as (-> & Hlt & e & He & Hc).
    intros [= <-]. exists O, []. simpl. rewrite app_nil_r, N.add_0_r.
    split_and!; [done|done|intros; lia|eauto].
  - apply loop_turn_Exit in Hturn as (-> & Hge).
    intros [= <-]. exists O, []. simpl. rewrite app_nil_r.
    split_and!; [done|done|intros; lia|intros; lia].
  - discriminate.
Qed.

(** A rejection is an exception of the storage, other than the missing
    key, passed on as it is. *)
Lemma loop_Thrown client fuel fp page tp e :
  getTextPreview_loop client fuel fp page tp = Thrown e →
  ∃ n rest,
    pages_text client n fp page = Some rest ∧
    String_length (tp ++ rest) < MAX_TEXT_LENGTH ∧
    client (pageKey fp (page + N.of_nat n)) = Raise e ∧
    Code e ≠ Some (lit "NoSuchKey").
Proof.
  revert page tp. induction fuel as [|fuel IH]; intros page tp; [discriminate|].
  simpl. destruct (loop_turn client fp page tp) as [p' t'|t'|t'|e'] eqn:Hturn;
    try discriminate.
  - apply loop_turn_Next in Hturn as (Hlt & -> & str & Hstr & ->).
    intros (n & rest & Hp & Hlen & He & Hc)%IH.
    exists (S n), (normalize str ++ rest). simpl. rewrite Hstr, Hp. simpl.
    rewrite <- app_assoc in Hlen. split_and!; [done|done| |done].
    rewrite <- He.
    by replace (page + N.of_nat (S n)) with (page + 1 + N.of_nat n) by lia.
  - apply loop_turn_Rethrow in Hturn as (Hlt & He & Hc).
    intros [= <-]. exists O, []. simpl. rewrite app_nil_r, N.add_0_r. done.
Qed.

(** Conversely, the loop runs through the pages that are there as long as
    the accumulator is below the bound. *)
Lemma loop_pages client fp n : ∀ fuel page tp rest,
  pages_text client n fp page = Some rest →
  (∀ k r, (k < n)%nat → pages_text client k fp page = Some r →
     String_length (tp ++ r) < MAX_TEXT_LENGTH) →
  getTextPreview_loop client (n + fuel) fp page tp =
  getTextPreview_loop client fuel fp (page + N.of_nat n) (tp ++ rest).
Proof.
  induction n as [|n IH]; intros fuel page tp rest Hp Hk.
  - simpl in *. injection Hp as <-. rewrite app_nil_r, N.add_0_r. done.
  - simpl in Hp. destruct (client (pageKey fp page)) as [str|] eqn:Hstr;
      [|discriminate].
    destruct (pages_text client n fp (page + 1)) as [r|] eqn:Hr;
      [|discriminate].
    injection Hp as <-. simpl.
    assert (String_length tp < MAX_TEXT_LENGTH) as Hlt.
    { specialize (Hk O [] ltac:(lia) eq_refl). rewrite app_nil_r in Hk. done. }
    unfold loop_turn. apply N.ltb_lt in Hlt as ->. rewrite Hstr.
    rewrite (IH fuel (page + 1) (tp ++ normalize str) r Hr).
    + rewrite <- app_assoc.
      by replace (page + N.of_nat (S n)) with (page + 1 + N.of_nat n) by lia.
    + intros k r' Hlt' Hr'. rewrite <- app_assoc.
      apply (Hk (S k)); [lia|]. simpl. rewrite Hstr, Hr'. done.
Qed.


Lemma getTextPreview_Returned_bound client fuel fp s :
  getTextPreview client fuel fp = Returned s →
  String_length s <= MAX_TEXT_LENGTH ∧
  ∃ n acc,
    pages_text client n fp 1 = Some acc ∧
    s = slice0 MAX_TEXT_LENGTH acc ∧
    ∀ k, (k < n)%nat → ∃ r, pages_text client k fp 1 = Some r ∧
        String_length r < MAX_TEXT_LENGTH.
Proof.
  intros (n & acc & Hp & -> & Hk & _)%loop_Returned. simpl in *. split.
  - rewrite slice0_length. lia.
  - exists n, acc. done.
Qed.

(** Once the text of the first [n] pages reaches the bound, the call
    returns it cut at the bound; no later page is asked for. *)
Lemma getTextPreview_stops_at_bound client fp n acc :
  pages_text client n fp 1 = Some acc →
  (∀ k r, (k < n)%nat → pages_text client k fp 1 = Some r →
     String_length r < MAX_TEXT_LENGTH) →
  MAX_TEXT_LENGTH <= String_length acc →
  ∀ fuel, (n < fuel)%nat →
  getTextPreview client fuel fp = Returned (slice0 MAX_TEXT_LENGTH acc).
Proof.
  intros Hp Hk Hlen fuel Hfuel. unfold getTextPreview.
  replace fuel with (n + S (fuel - S n))%nat by lia.
  rewrite (loop_pages client fp n _ 1 [] acc Hp).
  - simpl. unfold loop_turn. by apply N.ltb_ge in Hlen as ->.
  - intros k r Hlt Hr. simpl. by apply (Hk k r).
Qed.

(** C1. Whatever the storage and the fingerprint:
    - a preview that [getTextPreview] returns has at most 24000 code
      units: it is the text of the first [n] pages cut at the bound, each
      of them appended to an accumulator shorter than the bound;
    - a turn of the loop appends a page only when the accumulator is
      shorter than the bound;
    - once the text of the first [n] pages has reached the bound, the
      call returns that text cut at the bound, whatever the storage holds
      for the later pages. *)
Theorem getTextPreview_length_bound client fp :
  (∀ fuel s,
     getTextPreview client fuel fp = Returned s →
     String_length s <= MAX_TEXT_LENGTH ∧
     ∃ n acc,
       pages_text client n fp 1 = Some acc ∧
       s = slice0 MAX_TEXT_LENGTH acc ∧
       ∀ k, (k < n)%nat → ∃ r, pages_text client k fp 1 = Some r ∧
           String_length r < MAX_TEXT_LENGTH) ∧
  (∀ page textPreview page' textPreview',
     loop_turn client fp page textPreview = Next page' textPreview' →
     String_length textPreview < MAX_TEXT_LENGTH ∧
     page' = page + 1 ∧
     ∃ str, client (pageKey fp page) = Body str ∧
            textPreview' = textPreview ++ normalize str) ∧
  (∀ n acc,
     pages_text client n fp 1 = Some acc →
     (∀ k r, (k < n)%nat → pages_text client k fp 1 = Some r →
        String_length r < MAX_TEXT_LENGTH) →
     MAX_TEXT_LENGTH <= String_length acc →
     ∀ fuel, (n < fuel)%nat →
     getTextPreview client fuel fp =
       Returned (slice0 MAX_TEXT_LENGTH acc) ∧
     String_length (slice0 MAX_TEXT_LENGTH acc) = MAX_TEXT_LENGTH).
Proof.
  split_and!.
  - intros fuel s. apply getTextPreview_Returned_bound.
  - intros page tp page' tp'. apply loop_turn_Next.
  - intros n acc Hp Hk Hlen fuel Hfuel. split.
    + by apply (getTextPreview_stops_at_bound client fp n acc).
    + rewrite slice0_length. lia.
Qed.

(** A first page that fills the bound is the only page requested, and it
    is cut. *)
Lemma getTextPreview_first_page_cut client fuel fp str :
  client (pageKey fp 1) = Body str →
  MAX_TEXT_LENGTH <= String_length (normalize str) →
  getTextPreview client (S (S fuel)) fp =
  Returned (slice0 MAX_TEXT_LENGTH (normalize str)).
Proof.
  intros Hstr Hlen. unfold getTextPreview. simpl. unfold loop_turn at 1.
  rewrite Hstr. simpl. unfold loop_turn.
  by apply N.ltb_ge in Hlen as ->.
Qed.

Lemma getTextPreview_length_bound_witness :
  String_length (lit "HelloWorld") <= MAX_TEXT_LENGTH ∧
  (String_length [] < MAX_TEXT_LENGTH ∧
   2 = 1 + 1 ∧
   ∃ str, storageA (pageKey (lit "f1") 1) = Body str ∧
          lit "Hello" = [] ++ normalize str) ∧
  getTextPreview storageLong 2 (lit "f1") =
    Returned (slice0 MAX_TEXT_LENGTH (normalize longPage ++ [])) ∧
  String_length (slice0 MAX_TEXT_LENGTH (normalize longPage ++ [])) =
    MAX_TEXT_LENGTH.
Proof.
  split; [|split].
  - apply (proj1 (getTextPreview_length_bound storageA (lit "f1"))
             5%nat (lit "HelloWorld")).
    vm_compute. reflexivity.
  - apply (proj1 (proj2 (getTextPreview_length_bound storageA (lit "f1")))
             1 [] 2 (lit "Hello")).
    vm_compute. reflexivity.
  - apply (proj2 (proj2 (getTextPreview_length_bound storageLong (lit "f1")))
             1%nat (normalize longPage ++ [])).
    + reflexivity.
    + intros k r Hk Hr. assert (k = 0%nat) as -> by lia.
      injection Hr as <-. vm_compute. reflexivity.
    + rewrite app_nil_r, normalize_longPage. unfold String_length, longPage.
      rewrite length_replicate, N2Nat.id. vm_compute. discriminate.
    + lia.
Defined.

Lemma getTextPreview_short client fuel fp s :
  getTextPreview client fuel fp = Returned s →
  String_length s < MAX_TEXT_LENGTH →
  ∃ n e,
    pages_text client n fp 1 = Some s ∧
    client (pageKey fp (1 + N.of_nat n)) = Raise e ∧
    Code e = Some (lit "NoSuchKey").
Proof.
  intros (n & acc & Hp & -> & _ & Hmiss)%loop_Returned Hlt. simpl in *.
  rewrite slice0_length in Hlt.
  assert (String_length acc < MAX_TEXT_LENGTH) as Hacc by lia.
  destruct (Hmiss Hacc) as (e & He & Hc).
  exists n, e. rewrite slice0_short by lia. done.
Qed.

Lemma getTextPreview_rethrows client fp n acc e :
  pages_text client n fp 1 = Some acc →
  (∀ k r, (k <= n)%nat → pages_text client k fp 1 = Some r →
     String_length r < MAX_TEXT_LENGTH) →
  client (pageKey fp (1 + N.of_nat n)) = Raise e →
  Code e ≠ Some (lit "NoSuchKey") →
  ∀ fuel, (n < fuel)%nat → getTextPreview client fuel fp = Thrown e.
Proof.
  intros Hp Hk He Hc fuel Hfuel. unfold getTextPreview.
  replace fuel with (n + S (fuel - S n))%nat by lia.
  rewrite (loop_pages client fp n _ 1 [] acc Hp).
  - simpl. unfold loop_turn.
    specialize (Hk n acc ltac:(lia) Hp). apply N.ltb_lt in Hk as ->.
    rewrite He. by case_bool_decide.
  - intros k r Hlt Hr. simpl. apply (Hk k r); [lia|done].
Qed.

(** C6. A returned preview shorter than 24000 is the whole text of the
    pages 1..n, and the storage answered the request for page n+1 with
    the missing-key exception; a rejection of [getTextPreview] is an
    exception of the storage with another code, and such an exception at
    the page the loop has reached always rejects the call. *)
Theorem getTextPreview_stops_on_NoSuchKey :
  (∀ client fuel fp s,
     getTextPreview client fuel fp = Returned s →
     String_length s < MAX_TEXT_LENGTH →
     ∃ n e,
       pages_text client n fp 1 = Some s ∧
       client (pageKey fp (1 + N.of_nat n)) = Raise e ∧
       Code e = Some (lit "NoSuchKey")) ∧
  (∀ client fuel fp e,
     getTextPreview client fuel fp = Thrown e →
     ∃ n acc,
       pages_text client n fp 1 = Some acc ∧
       client (pageKey fp (1 + N.of_nat n)) = Raise e ∧
       Code e ≠ Some (lit "NoSuchKey")) ∧
  (∀ client fp n acc e,
     pages_text client n fp 1 = Some acc →
     (∀ k r, (k <= n)%nat → pages_text client k fp 1 = Some r →
        String_length r < MAX_TEXT_LENGTH) →
     client (pageKey fp (1 + N.of_nat n)) = Raise e →
     Code e ≠ Some (lit "NoSuchKey") →
     ∀ fuel, (n < fuel)%nat → getTextPreview client fuel fp = Thrown e).
Proof.
  split_and!.
  - apply getTextPreview_short.
  - intros client fuel fp e (n & acc & Hp & _ & He & Hc)%loop_Thrown.
    exists n, acc. done.
  - apply getTextPreview_rethrows.
Qed.

Lemma getTextPreview_stops_on_NoSuchKey_witness :
  (∃ n e,
     pages_text storageA n (lit "f1") 1 = Some (lit "HelloWorld") ∧
     storageA (pageKey (lit "f1") (1 + N.of_nat n)) = Raise e ∧
     Code e = Some (lit "NoSuchKey")) ∧
  getTextPreview storageDown 1 (lit "f1") =
    Thrown (ServiceException (lit "AccessDenied")).
Proof.
  destruct getTextPreview_stops_on_NoSuchKey as (Hshort & _ & Hthrow).
  split.
  - apply (Hshort storageA 5%nat (lit "f1") (lit "HelloWorld")).
    + vm_compute. reflexivity.
    + vm_compute. reflexivity.
  - apply (Hthrow storageDown (lit "f1") O []).
    + reflexivity.
    + intros [|k] r Hk Hr; simpl in Hr; [|discriminate Hr].
      injection Hr as <-. vm_compute. reflexivity.
    + reflexivity.
    + vm_compute. discriminate.
    + lia.
Defined.

Lemma loop_terminates client fp n e :
  client (pageKey fp n) = Raise e →
  ∀ fuel page tp, page <= n → (N.to_nat (n - page) < fuel)%nat →
  getTextPreview_loop client fuel fp page tp ≠ OutOfFuel.
Proof.
  intros He. induction fuel as [|fuel IH]; intros page tp Hle Hfuel; [lia|].
  simpl. destruct (loop_turn client fp page tp) as [p' t'|t'|t'|e'] eqn:Hturn;
    try discriminate.
  apply loop_turn_Next in Hturn as (_ & -> & str & Hstr & ->).
  assert (page ≠ n) by (intros ->; congruence).
  apply IH; lia.
Qed.

Lemma loop_blank client fp :
  (∀ page, ∃ str, client (pageKey fp page) = Body str ∧ normalize str = []) →
  ∀ fuel page, getTextPreview_loop client fuel fp page [] = OutOfFuel.
Proof.
  intros Hblank. induction fuel as [|fuel IH]; intros page; [done|].
  simpl. unfold loop_turn. simpl.
  destruct (Hblank page) as (str & -> & ->). apply IH.
Qed.

(** C10. [getTextPreview] settles as soon as the storage reports a
    missing object at some page index; the bound of 24000 alone does not
    make it settle: on a storage whose every page normalises to the empty
    string the accumulator stays empty and the loop runs on, whatever the
    fuel. *)
Theorem getTextPreview_terminates :
  (∀ client fp n e,
     1 <= n →
     client (pageKey fp n) = Raise e →
     Code e = Some (lit "NoSuchKey") →
     ∀ fuel, (N.to_nat n <= fuel)%nat →
     getTextPreview client fuel fp ≠ OutOfFuel) ∧
  (∀ client fp,
     (∀ page, ∃ str,
        client (pageKey fp page) = Body str ∧ normalize str = []) →
     ∀ fuel, getTextPreview client fuel fp = OutOfFuel).
Proof.
  split.
  - intros client fp n e Hn He _ fuel Hfuel.
    apply (loop_terminates client fp n e He); lia.
  - intros client fp Hblank fuel. apply loop_blank, Hblank.
Qed.

Lemma getTextPreview_terminates_witness :
  getTextPreview storageA 3 (lit "f1") ≠ OutOfFuel ∧
  getTextPreview storageBlank 1000 (lit "f1") = OutOfFuel.
Proof.
  destruct getTextPreview_terminates as (Hstop & Hloop). split.
  - apply (Hstop storageA (lit "f1") 3 (ServiceException (lit "NoSuchKey"))).
    + lia.
    + vm_compute. reflexivity.
    + reflexivity.
    + vm_compute. lia.
  - apply (Hloop storageBlank (lit "f1")).
    intros page. exists [SP; CR; LF; TAB; SP]. split; [reflexivity|].
    vm_compute. reflexivity.
Defined.


(** On a page without [\r], [\n] and [\t] and without any occurrence of
    [http], normalising the normalised page gives it back unchanged. *)
Lemma normalize_idempotent_on_plain s :
  plain s → normalize (normalize s) = normalize s.
Proof.
  intros Hs. rewrite (normalize_plain s Hs).
  rewrite (normalize_plain _ (plain_trim_squeeze s Hs)).
  apply trim_squeeze_fixed.
Qed.

Lemma normalize_idempotent_on_plain_witness :
  normalize (normalize (lit "  two   words  ")) =
  normalize (lit "  two   words  ").
Proof.
  apply normalize_idempotent_on_plain. split.
  - vm_compute. repeat constructor.
  - vm_compute. repeat split.
Defined.

(** C5, as it is stated, fails: a line break between two spaces goes
    after the runs of spaces were collapsed, and leaves two spaces for the
    next pass. *)
Lemma normalize_is_not_idempotent :
  ¬ ∀ s, normalize (normalize s) = normalize s.
Proof.
  intros H. specialize (H (lit "a " ++ [LF] ++ lit " b")).
  vm_compute in H. discriminate.
Qed.

Example normalize_line_break :
  normalize (lit "a " ++ [LF] ++ lit " b") = lit "a  b" ∧
  normalize (lit "a  b") = lit "a b".
Proof. split; vm_compute; reflexivity. Qed.

Example normalize_address :
  normalize (lit "see http://x.y/z?q now") = lit "see  now" ∧
  normalize (lit "see  now") = lit "see now".
Proof. split; vm_compute; reflexivity. Qed.

(** ** Classification *)

Lemma elem_of_summaries (r : Summary.t) (results : list ResultRecord.t) :
  r ∈ summarize <$> results ↔ ∃ full, r = summarize full ∧ full ∈ results.
Proof. apply list_elem_of_fmap. Qed.

Lemma summary_of_summarize s r : summary_of s r ↔ s = summarize r.
Proof.
  unfold summary_of, summarize. destruct s; simpl. split.
  - by intros (-> & -> & -> & -> & -> & ->).
  - by intros [= -> -> -> -> -> ->].
Qed.

Lemma filter_summarize (P : Summary.t → Prop) `{!∀ s, Decision (P s)}
    (results : list ResultRecord.t) :
  filter P (summarize <$> results) =
  summarize <$> filter (fun r => P (summarize r)) results.
Proof.
  induction results as [|r results IH]; [done|].
  rewrite fmap_cons, !filter_cons, IH. by case_decide.
Qed.

Lemma bucket_membership_by_summary results outputFolder fs (r : Summary.t) :
  let b := (aggregateResults results outputFolder fs).1 in
  (r ∈ sameAsCurrent b ↔
     r ∈ summarize <$> results ∧
     Summary.newDetectedLanguage r = Summary.currentLanguage r) ∧
  (r ∈ sameAsExpected b ↔
     r ∈ summarize <$> results ∧
     Summary.newDetectedLanguage r = Summary.expectedLanguage r) ∧
  (r ∈ differentResults b ↔
     r ∈ summarize <$> results ∧
     Summary.newDetectedLanguage r ≠ Summary.currentLanguage r ∧
     Summary.newDetectedLanguage r ≠ Summary.expectedLanguage r).
Proof.
  simpl. rewrite !list_elem_of_filter. intuition congruence.
Qed.

(** C2. For every array of records, output folder and file system:
    - [sameAsCurrent] holds exactly the summaries (the six properties of
      lines 95-102, with the values of the record) of the records of the
      input whose [newDetectedLanguage] is their [currentLanguage];
      [sameAsExpected] those of the records whose [newDetectedLanguage] is
      their [expectedLanguage]; [differentResults] those of the records
      whose [newDetectedLanguage] is neither;
    - each bucket is the input filtered by its own test, record by
      record, in the order of the input. *)
Theorem aggregateResults_buckets results outputFolder fs :
  let b := (aggregateResults results outputFolder fs).1 in
  (∀ s, s ∈ sameAsCurrent b ↔
     ∃ r, r ∈ results ∧ summary_of s r ∧
          ResultRecord.newDetectedLanguage r = ResultRecord.currentLanguage r) ∧
  (∀ s, s ∈ sameAsExpected b ↔
     ∃ r, r ∈ results ∧ summary_of s r ∧
          ResultRecord.newDetectedLanguage r =
            ResultRecord.expectedLanguage r) ∧
  (∀ s, s ∈ differentResults b ↔
     ∃ r, r ∈ results ∧ summary_of s r ∧
          ResultRecord.newDetectedLanguage r ≠
            ResultRecord.currentLanguage r ∧
          ResultRecord.newDetectedLanguage r ≠
            ResultRecord.expectedLanguage r) ∧
  sameAsCurrent b =
    summarize <$>
      filter (fun r => ResultRecord.currentLanguage r =
                       ResultRecord.newDetectedLanguage r) results ∧
  sameAsExpected b =
    summarize <$>
      filter (fun r => ResultRecord.expectedLanguage r =
                       ResultRecord.newDetectedLanguage r) results ∧
  differentResults b =
    summarize <$>
      filter (fun r => ResultRecord.expectedLanguage r ≠
                         ResultRecord.newDetectedLanguage r ∧
                       ResultRecord.currentLanguage r ≠
                         ResultRecord.newDetectedLanguage r) results.
Proof.
  simpl. rewrite !filter_summarize. simpl. split_and!; try done.
  - intros s. rewrite list_elem_of_fmap.
    setoid_rewrite list_elem_of_filter. setoid_rewrite summary_of_summarize.
    split; intros (r & ? & ? & ?); exists r; intuition congruence.
  - intros s. rewrite list_elem_of_fmap.
    setoid_rewrite list_elem_of_filter. setoid_rewrite summary_of_summarize.
    split; intros (r & ? & ? & ?); exists r; intuition congruence.
  - intros s. rewrite list_elem_of_fmap.
    setoid_rewrite list_elem_of_filter. setoid_rewrite summary_of_summarize.
    split; [intros (r & ? & (? & ?) & ?)|intros (r & ? & ? & ? & ?)];
      exists r; intuition congruence.
Qed.

Example summary_of_recordA :
  summary_of (summarize (recordA (lit "pt") (lit "HelloWorld")))
    (recordA (lit "pt") (lit "HelloWorld")) ∧
  sameAsCurrent
    (aggregateResults
       [recordA (lit "en") (lit "a"); recordA (lit "pt") (lit "b");
        recordA (lit "es") (lit "c")] (lit "out") ∅).1 =
    [summarize (recordA (lit "pt") (lit "b"))].
Proof. split; [by repeat split|]. vm_compute. reflexivity. Qed.

Lemma in_buckets_summary r results :
  in_buckets r (classify results) → ∃ full, r = summarize full ∧ full ∈ results.
Proof.
  unfold in_buckets, classify. simpl. rewrite !list_elem_of_filter.
  rewrite <- elem_of_summaries. tauto.
Qed.

(** C8 (as amended). A record of a bucket is the six-property object
    built at lines 95-102 from a record of the input: it has the
    properties [id], [name], [currentLanguage], [expectedLanguage],
    [newDetectedLanguage] and [oldDetectedLanguage] of that record, with
    the same values, and no [fileurl], [textPreviewLength] or
    [textPreview]. *)
Theorem bucket_record_has_six_properties results outputFolder fs r :
  in_buckets r (aggregateResults results outputFolder fs).1 →
  ∃ full,
    full ∈ results ∧
    keys (Summary.toObject r) =
      [ "id"; "name"; "currentLanguage"; "expectedLanguage";
        "newDetectedLanguage"; "oldDetectedLanguage" ]%string ∧
    (∀ k, k ∈ keys (Summary.toObject r) →
       prop k (Summary.toObject r) = prop k (ResultRecord.toObject full)) ∧
    prop "fileurl" (Summary.toObject r) = None ∧
    prop "textPreviewLength" (Summary.toObject r) = None ∧
    prop "textPreview" (Summary.toObject r) = None.
Proof.
  simpl. intros (full & -> & Hin)%in_buckets_summary.
  exists full. split_and!; try done.
  intros k Hk. simpl in Hk.
  repeat (apply elem_of_cons in Hk as [->|Hk]; [reflexivity|]).
  by apply elem_of_nil in Hk.
Qed.

Lemma bucket_record_has_six_properties_witness :
  ∃ full,
    full ∈ [recordA (lit "en") (lit "HelloWorld")] ∧
    keys (Summary.toObject (summarize (recordA (lit "en") (lit "HelloWorld")))) =
      [ "id"; "name"; "currentLanguage"; "expectedLanguage";
        "newDetectedLanguage"; "oldDetectedLanguage" ]%string ∧
    (∀ k,
       k ∈ keys (Summary.toObject
                   (summarize (recordA (lit "en") (lit "HelloWorld")))) →
       prop k (Summary.toObject
                 (summarize (recordA (lit "en") (lit "HelloWorld")))) =
       prop k (ResultRecord.toObject full)) ∧
    prop "fileurl"
      (Summary.toObject (summarize (recordA (lit "en") (lit "HelloWorld")))) =
      None ∧
    prop "textPreviewLength"
      (Summary.toObject (summarize (recordA (lit "en") (lit "HelloWorld")))) =
      None ∧
    prop "textPreview"
      (Summary.toObject (summarize (recordA (lit "en") (lit "HelloWorld")))) =
      None.
Proof.
  apply (bucket_record_has_six_properties
           [recordA (lit "en") (lit "HelloWorld")] (lit "out") ∅).
  left. vm_compute. apply list_elem_of_here.
Defined.

(** C8, as it is stated, fails: the record that the bucket holds for the
    scenario has no [fileurl]. *)
Lemma bucket_record_is_not_full :
  ¬ (∀ results outputFolder fs r k,
       in_buckets r (aggregateResults results outputFolder fs).1 →
       k ∈ ResultRecord.fields →
       is_Some (prop k (Summary.toObject r))).
Proof.
  intros H.
  specialize (H [recordA (lit "en") (lit "HelloWorld")] (lit "out") ∅
                (summarize (recordA (lit "en") (lit "HelloWorld")))
                "fileurl"%string).
  destruct H as [v Hv].
  - left. vm_compute. apply list_elem_of_here.
  - vm_compute. do 2 apply list_elem_of_further. apply list_elem_of_here.
  - vm_compute in Hv. discriminate.
Qed.


(** ** Sampling *)

Lemma insert_sorted_perm {A} cmp (x : A) sorted : ∀ calls,
  (insert_sorted cmp calls x sorted).1 ≡ₚ x :: sorted.
Proof.
  induction sorted as [|y rest IH]; intros calls; simpl; [done|].
  destruct (cmp calls); simpl; try done.
  specialize (IH (S calls)).
  destruct (insert_sorted cmp (S calls) x rest) as [placed calls'].
  simpl in *. rewrite IH. apply Permutation_swap.
Qed.

Lemma Array_sort_perm {A} cmp (l : list A) : ∀ calls,
  (Array_sort cmp calls l).1 ≡ₚ l.
Proof.
  induction l as [|x rest IH]; intros calls; simpl; [done|].
  specialize (IH calls).
  destruct (Array_sort cmp calls rest) as [sorted calls']. simpl in IH.
  rewrite insert_sorted_perm. by rewrite IH.
Qed.

(** C7. For every bucket and every sequence of answers of the
    comparator, [getSample] returns min(25, length of the bucket)
    records, each of them an element of the bucket: the first 25 of a
    permutation of the bucket. *)
Theorem getSample_is_prefix_of_permutation {A} cmp calls (results : list A) :
  let sample := (getSample cmp calls results).1 in
  length sample = (25 `min` length results)%nat ∧
  (∀ r, r ∈ sample → r ∈ results) ∧
  ∃ shuffled, shuffled ≡ₚ results ∧ sample = take 25 shuffled.
Proof.
  unfold getSample. pose proof (Array_sort_perm cmp results calls) as Hperm.
  destruct (Array_sort cmp calls results) as [shuffled calls']. simpl in *.
  split_and!.
  - rewrite length_take, Hperm. done.
  - intros r Hr. rewrite <- Hperm. by eapply subseteq_take.
  - by exists shuffled.
Qed.

(** ** The manual tally *)

Lemma tally_item_init item : tally_item item result_init = Thrown TypeError.
Proof.
  unfold tally_item.
  destruct (bool_decide (prop "newAnalysis" item = Some Correto));
    reflexivity.
Qed.

Lemma tally_items_init items :
  tally_items items result_init =
  match items with
  | [] => Returned result_init
  | _ :: _ => Thrown TypeError
  end.
Proof.
  destruct items as [|item items]; [done|]. simpl.
  by rewrite tally_item_init.
Qed.

Lemma tally_folder_init fs folder r :
  tally_folder fs folder result_init = Returned r → r = result_init.
Proof.
  unfold tally_folder.
  generalize (readJSON fs (folder ++ lit "/manual-analysis/same-as-expected-sample.json")).
  generalize (readJSON fs (folder ++ lit "/manual-analysis/same-as-current-sample.json")).
  generalize (readJSON fs (folder ++ lit "/manual-analysis/different-than-expected-and-current-sample.json")).
  intros [l1| |] [l2| |] [l3| |]; simpl; try discriminate.
  rewrite tally_items_init. destruct (l1 ++ l2 ++ l3); [|discriminate].
  by intros [= <-].
Qed.

(** Whenever the function completes it has counted nothing. *)
Lemma countManualAnalysisResults_Returned fs r :
  countManualAnalysisResults fs = Returned r → r = result_init.
Proof.
  unfold countManualAnalysisResults, folders. simpl.
  destruct (tally_folder fs _ result_init) as [r1| |] eqn:H1;
    simpl; try discriminate.
  apply tally_folder_init in H1 as ->. apply tally_folder_init.
Qed.

(** C9 fails on the code.  The counters are looked up under [new] and
    [old], which the object of lines 237-246 does not have (its
    properties are [newMethod] and [oldMethod]): on sample files that hold
    one annotated record the function throws a [TypeError] instead of
    counting it, and it completes, with all counters at zero, only when
    every sample file is empty. *)
Theorem countManualAnalysisResults_throws :
  countManualAnalysisResults filesAnnotated = Thrown TypeError ∧
  countManualAnalysisResults filesManual = Returned result_init.
Proof.
  split; vm_compute; reflexivity.
Qed.


(** ** The scenario, end to end *)

Lemma loop_more_fuel client fp : ∀ fuel fuel' page tp,
  (fuel <= fuel')%nat →
  getTextPreview_loop client fuel fp page tp ≠ OutOfFuel →
  getTextPreview_loop client fuel' fp page tp =
  getTextPreview_loop client fuel fp page tp.
Proof.
  induction fuel as [|fuel IH]; intros fuel' page tp Hle Hne; [done|].
  destruct fuel' as [|fuel']; [lia|]. simpl in *.
  destruct (loop_turn client fp page tp); try done.
  apply IH; [lia|done].
Qed.

Lemma getTextPreviewA fuel :
  (3 <= fuel)%nat →
  getTextPreview storageA fuel (lit "f1") = Returned (lit "HelloWorld").
Proof.
  intros Hfuel. unfold getTextPreview.
  rewrite (loop_more_fuel storageA (lit "f1") 3 fuel); [|done|].
  - vm_compute. reflexivity.
  - vm_compute. discriminate.
Qed.

Lemma runJobA_outcome cmp fuel :
  (3 <= fuel)%nat →
  match runJob csvA storageA serviceA langdetectA cmp fuel es ∅ with
  | Returned run =>
      run_results run = [recordA (lit "en") (lit "HelloWorld")] ∧
      run_buckets run =
        {| differentResults :=
             [summarize (recordA (lit "en") (lit "HelloWorld"))];
           sameAsCurrent := [];
           sameAsExpected := [] |}
  | _ => False
  end.
Proof.
  intros Hfuel. unfold runJob, processFile.
  change (csvA _) with
    (Body [ {| SourceRow.id := lit "1"; SourceRow.fileurl := lit "f1";
               SourceRow.name := lit "Doc1" |} ]).
  cbn [settle mbind outcome_bind fmap list_fmap SourceRow.fileurl].
  rewrite getTextPreviewA by done.
  vm_compute. split; reflexivity.
Qed.

Lemma runJobA cmp fuel :
  (3 <= fuel)%nat →
  ∃ run,
    runJob csvA storageA serviceA langdetectA cmp fuel es ∅ = Returned run ∧
    run_results run = [recordA (lit "en") (lit "HelloWorld")] ∧
    run_buckets run =
      {| differentResults :=
           [summarize (recordA (lit "en") (lit "HelloWorld"))];
         sameAsCurrent := [];
         sameAsExpected := [] |}.
Proof.
  intros Hfuel. pose proof (runJobA_outcome cmp fuel Hfuel) as H.
  destruct (runJob csvA storageA serviceA langdetectA cmp fuel es ∅)
    as [run| |]; [|done|done].
  exists run. done.
Qed.

(** C3 (as amended). In the scenario (row [{id: "1", fileurl: "f1",
    name: "Doc1"}], pages ["Hello "] and ["World"], service answer
    ["en"], legacy guess ["en"], labels current ["pt"] and expected
    ["es"]) the job produces one record, with [textPreview]
    ["HelloWorld"] (each page is trimmed before it is appended),
    [textPreviewLength] 10, [newDetectedLanguage] ["en"] and
    [oldDetectedLanguage] ["en"]; its six-property summary is the only
    element of [differentResults], and the two other buckets are empty. *)
Theorem scenarioA_record cmp fuel :
  (3 <= fuel)%nat →
  ∃ run,
    runJob csvA storageA serviceA langdetectA cmp fuel es ∅ = Returned run ∧
    run_results run = [recordA (lit "en") (lit "HelloWorld")] ∧
    ResultRecord.textPreview (recordA (lit "en") (lit "HelloWorld")) =
      lit "HelloWorld" ∧
    ResultRecord.textPreviewLength (recordA (lit "en") (lit "HelloWorld")) =
      10 ∧
    differentResults (run_buckets run) =
      [summarize (recordA (lit "en") (lit "HelloWorld"))] ∧
    sameAsCurrent (run_buckets run) = [] ∧
    sameAsExpected (run_buckets run) = [].
Proof.
  intros Hfuel. destruct (runJobA cmp fuel Hfuel) as (run & Hrun & Hres & Hb).
  exists run. rewrite Hb. split_and!; done.
Qed.

Lemma scenarioA_record_witness :
  ∃ run,
    runJob csvA storageA serviceA langdetectA (fun _ => Lt) 3 es ∅ =
      Returned run ∧
    run_results run = [recordA (lit "en") (lit "HelloWorld")] ∧
    ResultRecord.textPreview (recordA (lit "en") (lit "HelloWorld")) =
      lit "HelloWorld" ∧
    ResultRecord.textPreviewLength (recordA (lit "en") (lit "HelloWorld")) =
      10 ∧
    differentResults (run_buckets run) =
      [summarize (recordA (lit "en") (lit "HelloWorld"))] ∧
    sameAsCurrent (run_buckets run) = [] ∧
    sameAsExpected (run_buckets run) = [].
Proof.
  apply (scenarioA_record (fun _ => Lt) 3). lia.
Defined.

(** C3, as it is stated, fails: no record of the scenario has the preview
    ["Hello World"]. *)
Lemma scenarioA_preview_has_no_space :
  ¬ ∃ fuel run r,
      runJob csvA storageA serviceA langdetectA (fun _ => Lt) fuel es ∅ =
        Returned run ∧
      r ∈ run_results run ∧
      ResultRecord.textPreview r = lit "Hello World" ∧
      ResultRecord.newDetectedLanguage r = lit "en" ∧
      ResultRecord.oldDetectedLanguage r = lit "en" ∧
      summarize r ∈ differentResults (run_buckets run) ∧
      (summarize r ∉ sameAsCurrent (run_buckets run)) ∧
      (summarize r ∉ sameAsExpected (run_buckets run)).
Proof.
  intros (fuel & run & r & Hrun & Hr & Hpreview & _).
  destruct (decide (3 <= fuel)%nat) as [Hfuel|Hfuel].
  - destruct (runJobA (fun _ => Lt) fuel Hfuel) as (run' & Hrun' & Hres & _).
    rewrite Hrun in Hrun'. injection Hrun' as <-.
    rewrite Hres in Hr. apply list_elem_of_singleton in Hr as ->.
    vm_compute in Hpreview. discriminate.
  - assert (fuel = 0%nat ∨ fuel = 1%nat ∨ fuel = 2%nat) as [-> | [-> | ->]]
      by lia;
      vm_compute in Hrun; discriminate.
Qed.


(** ** The two jobs *)

Lemma elem_of_tag k k' o ops : (k, o) ∈ tag k' ops ↔ k = k' ∧ o ∈ ops.
Proof.
  unfold tag. rewrite list_elem_of_fmap. split.
  - intros (o' & [= -> ->] & Ho). done.
  - intros [-> Ho]. eauto.
Qed.

Lemma job_set_job k k' st m :
  job k (set_job k' st m) = if decide (k = k') then st else job k m.
Proof. by destruct k, k'. Qed.

(** What a task can do. *)
Lemma resume_ops k awaits choice st st' ops :
  resume k awaits choice st = Some (st', ops) →
  (st' = Settled ∧ ops = job_writes k) ∨
  (∀ o, o ∈ ops → ∃ row, o = RowStep row).
Proof.
  unfold resume. destruct st as [| |pending|]; try discriminate.
  - intros [= <- <-]. right. intros o (row & -> & _)%list_elem_of_fmap. eauto.
  - destruct (forallb _ pending).
    + intros [= <- <-]. by left.
    + destruct (pending !! choice) as [[|n]|]; try discriminate.
      intros [= <- <-]. right. intros o ->%list_elem_of_singleton. eauto.
Qed.

Lemma job_writes_are_writes k o : o ∈ job_writes k → is_write o = true.
Proof.
  unfold job_writes. intros (path & -> & _)%list_elem_of_fmap. done.
Qed.

(** A settled job has no task left. *)
Lemma event_loop_settled awaits k : ∀ schedule m,
  job k m = Settled → ∀ o, (k, o) ∉ (event_loop awaits schedule m).2.
Proof.
  induction schedule as [|[k' choice] schedule IH]; intros m Hk o; simpl.
  - apply not_elem_of_nil.
  - destruct (resume k' (awaits k') choice (job k' m)) as [[st ops]|] eqn:Hr;
      [|by apply IH].
    specialize (IH (set_job k' st m)).
    destruct (event_loop awaits schedule (set_job k' st m)) as [m' events].
    simpl in *. rewrite elem_of_app, elem_of_tag.
    intros [[<- Ho]|Hin].
    + rewrite Hk in Hr. discriminate.
    + revert Hin. apply IH. rewrite job_set_job.
      destruct (decide (k = k')) as [<-|]; [|done].
      rewrite Hk in Hr. discriminate.
Qed.

Lemma event_loop_no_read awaits k : ∀ schedule m,
  (k, ReadMaterials) ∉ (event_loop awaits schedule m).2.
Proof.
  induction schedule as [|[k' choice] schedule IH]; intros m; simpl.
  - apply not_elem_of_nil.
  - destruct (resume k' (awaits k') choice (job k' m)) as [[st ops]|] eqn:Hr;
      [|by apply IH].
    specialize (IH (set_job k' st m)).
    destruct (event_loop awaits schedule (set_job k' st m)) as [m' events].
    simpl in *. rewrite elem_of_app, elem_of_tag.
    intros [[<- Ho]|Hin]; [|done].
    apply resume_ops in Hr as [[_ ->]|Hrows].
    + by apply job_writes_are_writes in Ho.
    + by destruct (Hrows _ Ho).
Qed.

Lemma event_loop_writes_last awaits k : ∀ schedule m,
  writes_last k (event_loop awaits schedule m).2.
Proof.
  induction schedule as [|[k' choice] schedule IH]; intros m; simpl.
  - intros [|??] ???; discriminate.
  - destruct (resume k' (awaits k') choice (job k' m)) as [[st ops]|] eqn:Hr;
      [|by apply IH].
    pose proof (event_loop_settled awaits k schedule (set_job k' st m)) as Hs.
    specialize (IH (set_job k' st m)).
    destruct (event_loop awaits schedule (set_job k' st m)) as [m' events].
    simpl in *. intros l1 l2 path o Heq Ho.
    apply app_eq_app in Heq as [l [[Htag Hev]|[Hl1 Hev]]].
    + destruct l as [|x l]; simpl in Hev.
      { by apply (IH [] l2 path o). }
      injection Hev as <- ->.
      assert ((k, WriteFile path) ∈ tag k' ops) as [<- Hw]%elem_of_tag.
      { rewrite Htag. apply elem_of_app. right. apply list_elem_of_here. }
      apply resume_ops in Hr as [[-> ->]|Hrows].
      * apply elem_of_app in Ho as [Ho|Ho].
        -- apply (job_writes_are_writes k).
           assert ((k, o) ∈ tag k (job_writes k)) as [_ ?]%elem_of_tag; [|done].
           rewrite Htag. apply elem_of_app. right. by apply list_elem_of_further.
        -- exfalso. revert Ho. apply Hs. rewrite job_set_job.
           by destruct (decide (k = k)).
      * by destruct (Hrows _ Hw).
    + by apply (IH l l2 path o).
Qed.

(** C4 (as amended). The two jobs are started one after the other
    without waiting: whatever the schedule, the run begins with the first
    step of ["pt"] (the request for its materials), then the first step of
    ["es"], and every later step of either job, all the writes of ["pt"]
    among them, comes after both; within each job, once a file is written
    the job does nothing but write. *)
Theorem jobs_start_back_to_back awaits schedule :
  let events := (main awaits schedule).2 in
  (∃ rest,
     events = (pt, ReadMaterials) :: (es, ReadMaterials) :: rest ∧
     ∀ k, (k, ReadMaterials) ∉ rest) ∧
  (∀ i path, events !! i = Some (pt, WriteFile path) → (1 < i)%nat) ∧
  (∀ k, writes_last k events).
Proof.
  unfold main. simpl.
  pose proof (event_loop_no_read awaits) as Hread.
  pose proof (event_loop_writes_last awaits) as Hlast.
  set (m := {| job_pt := AwaitMaterials; job_es := AwaitMaterials |}).
  specialize (Hread pt schedule m) as Hpt.
  specialize (Hread es schedule m) as Hes.
  pose proof (fun k => Hlast k schedule m) as Hw.
  destruct (event_loop awaits schedule m) as [m' events]. simpl in *.
  split_and!.
  - exists events. split; [done|]. by intros [].
  - intros [|[|i]] path; simpl; [discriminate|discriminate|lia].
  - intros k [|e1 [|e2 l1]] l2 path o Heq Ho; simpl in Heq.
    + discriminate.
    + discriminate.
    + injection Heq as _ _ Heq. by apply (Hw k l1 l2 path o).
Qed.

(** C4, as it is stated, fails, even on the schedule that lets ["pt"] run
    to its end before it resumes ["es"]: ["es"] has taken its first step
    before ["pt"] writes. *)
Lemma jobs_are_not_sequential :
  ¬ ∀ awaits schedule, pt_before_es (main awaits schedule).2.
Proof.
  intros H. specialize (H awaitsA scheduleA 2%nat 1%nat (RowStep 0) ReadMaterials).
  assert (2 < 1)%nat; [|lia]. apply H; vm_compute; reflexivity.
Qed.

Example scheduleB_interleaves :
  (main awaitsA scheduleB).1 = {| job_pt := Settled; job_es := Settled |} ∧
  (main awaitsA scheduleB).2 =
    [(pt, ReadMaterials); (es, ReadMaterials)] ++
    concat (replicate 4 [(es, RowStep 0); (pt, RowStep 0)]) ++
    tag es (job_writes es) ++ tag pt (job_writes pt).
Proof. split; vm_compute; reflexivity. Qed.

Example scheduleA_settles_both :
  (main awaitsA scheduleA).1 = {| job_pt := Settled; job_es := Settled |} ∧
  (main awaitsA scheduleA).2 =
    [(pt, ReadMaterials); (es, ReadMaterials)] ++
    tag pt (replicate 4 (RowStep 0) ++ job_writes pt) ++
    tag es (replicate 4 (RowStep 0) ++ job_writes es).
Proof. split; vm_compute; reflexivity. Qed.


(** * Further properties *)

(** ** The chain of replacements (lines 46-50) *)

Lemma scan_sublist m : ∀ s b k, scan m [] b k s `sublist_of` s.
Proof.
  induction s as [|c t IH]; intros b k.
  - destruct k; simpl; [|done]. by destruct (m b []) as [[|?]|].
  - destruct k as [|k]; [|by apply sublist_cons, IH].
    rewrite scan_cons. destruct (m b (c :: t)) as [[|j]|]; simpl.
    + by apply sublist_skip.
    + by apply sublist_cons.
    + by apply sublist_skip.
Qed.

Lemma squeeze_sublist s : squeeze s `sublist_of` s.
Proof.
  induction s as [|c t IH]; simpl; [done|].
  destruct ((c =? SP) && starts_with_space t).
  - by apply sublist_cons.
  - by apply sublist_skip.
Qed.

Lemma replaceAll_spaces s : replaceAll re_spaces [SP] s = squeeze s.
Proof. apply replaceAll_spaces_squeeze. Qed.

Lemma replaceAll_crlftab s : replaceAll re_crlftab [] s = strip_controls s.
Proof. apply replaceAll_crlftab_strip. Qed.

Lemma normalize_steps s :
  normalize s =
  scan re_url [] true 0 (strip_controls (trim (squeeze s))).
Proof.
  unfold normalize, replaceAll at 1 2 4.
  by rewrite replaceAll_spaces_squeeze, replaceAll_edges_trim,
    replaceAll_crlftab_strip.
Qed.

(** X1. The chain only deletes: the normalised page is a subsequence of
    the page (its code units, in their order, with some left out), so it
    is never longer than the page. *)
Theorem normalize_only_deletes s :
  normalize s `sublist_of` s ∧ (length (normalize s) <= length s)%nat.
Proof.
  assert (normalize s `sublist_of` s) as H.
  { unfold normalize, replaceAll. rewrite replaceAll_spaces_squeeze.
    etrans; [apply scan_sublist|]. etrans; [apply scan_sublist|].
    etrans; [apply scan_sublist|]. apply squeeze_sublist. }
  split; [done|]. by apply sublist_length.
Qed.

Lemma strip_controls_Forall s :
  Forall (fun c => control c = false) (strip_controls s).
Proof.
  induction s as [|c t IH]; simpl; [done|].
  destruct (control c) eqn:Hc; simpl; [done|]. by constructor.
Qed.

Lemma Forall_sublist_of {A} (P : A → Prop) (l k : list A) :
  l `sublist_of` k → Forall P k → Forall P l.
Proof.
  intros Hsub. rewrite !Forall_forall. intros Hk x Hx.
  by apply Hk, (sublist_subseteq _ _ Hsub).
Qed.

Lemma normalize_no_controls s :
  Forall (fun c => control c = false) (normalize s).
Proof.
  rewrite normalize_steps.
  eapply Forall_sublist_of; [apply scan_sublist|apply strip_controls_Forall].
Qed.

(** X2. Whatever the page, its normalised text holds no carriage return,
    no line feed and no tab. *)
Theorem normalize_has_no_line_breaks s c :
  c ∈ normalize s → c ≠ CR ∧ c ≠ LF ∧ c ≠ TAB.
Proof.
  intros Hc.
  pose proof (proj1 (Forall_forall _ _) (normalize_no_controls s) c Hc) as H.
  unfold control in H. apply orb_false_iff in H as [H Htab].
  apply orb_false_iff in H as [Hcr Hlf].
  by rewrite !N.eqb_neq in *.
Qed.

Lemma normalize_has_no_line_breaks_witness :
  (98 : N) ≠ CR ∧ (98 : N) ≠ LF ∧ (98 : N) ≠ TAB.
Proof.
  apply (normalize_has_no_line_breaks (lit "a " ++ [LF] ++ lit " b") 98).
  vm_compute. do 3 apply list_elem_of_further. apply list_elem_of_here.
Defined.

Lemma trim_end_last s : last (trim_end s) ≠ Some SP.
Proof.
  induction s as [|c t IH]; [done|]. cbn [trim_end].
  destruct (blank (c :: t)) eqn:Hb; [done|]. rewrite last_cons.
  destruct (last (trim_end t)) as [y|] eqn:Hl; [done|].
  intros [= ->]. apply last_None in Hl. apply blank_nil_iff in Hl.
  by rewrite blank_cons, Hl in Hb.
Qed.

(** X3. After the first two replacements, whatever the page, the text
    has no two spaces in a row, does not start with a space and does not
    end with one. *)
Theorem spaces_collapsed_and_trimmed s :
  let t := replaceAll re_edges [] (replaceAll re_spaces [SP] s) in
  single_spaced t ∧ starts_with_space t = false ∧ last t ≠ Some SP.
Proof.
  intros t. subst t. rewrite replaceAll_spaces, replaceAll_edges_trim.
  unfold trim. split_and!.
  - apply single_spaced_trim_end, single_spaced_drop, squeeze_single_spaced.
  - apply spaces_starts, spaces_trim_end, spaces_drop.
  - apply trim_end_last.
Qed.

(** X4. The third replacement deletes every carriage return, line feed
    and tab, and nothing else: its result is the text filtered of these
    three code units. *)
Theorem replaceAll_crlftab_deletes_exactly s :
  replaceAll re_crlftab [] s =
  List.filter (fun c => negb ((c =? CR) || (c =? LF) || (c =? TAB))) s.
Proof.
  apply replaceAll_crlftab.
Qed.

Lemma squeeze_idemp s : squeeze (squeeze s) = squeeze s.
Proof. apply single_spaced_squeeze, squeeze_single_spaced. Qed.

Lemma strip_controls_idemp s :
  strip_controls (strip_controls s) = strip_controls s.
Proof. apply strip_controls_id, strip_controls_Forall. Qed.

(** X5. Each of the first three replacements, taken alone, is
    idempotent. *)
Theorem first_three_replacements_idempotent s :
  replaceAll re_spaces [SP] (replaceAll re_spaces [SP] s) =
    replaceAll re_spaces [SP] s ∧
  replaceAll re_edges [] (replaceAll re_edges [] s) =
    replaceAll re_edges [] s ∧
  replaceAll re_crlftab [] (replaceAll re_crlftab [] s) =
    replaceAll re_crlftab [] s.
Proof.
  split_and!.
  - rewrite !replaceAll_spaces. apply squeeze_idemp.
  - rewrite !replaceAll_edges_trim. apply trim_idemp.
  - rewrite !replaceAll_crlftab. apply strip_controls_idemp.
Qed.

Lemma strip_prefix_None_app p : ∀ x y,
  (length p <= length x)%nat →
  strip_prefix p x = None → strip_prefix p (x ++ y) = None.
Proof.
  induction p as [|a p IH]; intros x y Hlen; [done|].
  destruct x as [|c x]; simpl in *; [lia|].
  destruct (c =? a); [|done]. apply IH. lia.
Qed.

Lemma scan_url_flag b s : scan re_url [] b 0 s = scan re_url [] false 0 s.
Proof. by destruct s. Qed.

Lemma scan_url_before tail : ∀ pre,
  no_url (pre ++ lit "htt") →
  scan re_url [] false 0 (pre ++ lit "http" ++ tail) =
  pre ++ scan re_url [] false 0 (lit "http" ++ tail).
Proof.
  induction pre as [|c pre IH]; [done|]. intros [Hc Hpre].
  rewrite <- !app_comm_cons, scan_cons, IH by done.
  assert (re_url false (c :: pre ++ lit "http" ++ tail) = None) as ->; [|done].
  unfold re_url.
  replace (c :: pre ++ lit "http" ++ tail)
    with ((c :: pre ++ lit "htt") ++ lit "p" ++ tail).
  - rewrite strip_prefix_None_app; [done| |done].
    rewrite length_cons, length_app.
    change (length (lit "http")) with 4%nat.
    change (length (lit "htt")) with 3%nat. lia.
  - rewrite <- app_comm_cons. f_equal. by rewrite <- app_assoc.
Qed.

Lemma lazy_dots_word rest : ∀ w,
  Forall (fun c => c ≠ SP ∧ lineTerminator c = false) w →
  rest = [] ∨ starts_with_space rest = true →
  lazy_dots (w ++ rest) = Some (length w).
Proof.
  intros w Hw Hrest.
  induction Hw as [|c w [Hsp Hlt] _ IH]; cbn [app lazy_dots length].
  - destruct Hrest as [->|Hs]; [done|].
    destruct rest as [|c t]; [done|].
    cbn [starts_with_space lazy_dots] in *. by rewrite Hs.
  - apply N.eqb_neq in Hsp as ->. by rewrite Hlt, IH.
Qed.

Lemma re_url_word b w rest :
  Forall (fun c => c ≠ SP ∧ lineTerminator c = false) w →
  rest = [] ∨ starts_with_space rest = true →
  re_url b (lit "http" ++ w ++ rest) = Some (4 + length w)%nat.
Proof.
  intros Hw Hrest. unfold re_url.
  rewrite (proj2 (strip_prefix_Some (lit "http") _ (w ++ rest)) eq_refl).
  rewrite (lazy_dots_word rest w Hw Hrest).
  destruct w as [|c w]; cbn [app length].
  - destruct Hrest as [->|Hs]; [done|].
    destruct rest as [|c t]; [done|]. cbn [starts_with_space] in Hs.
    apply N.eqb_eq in Hs as ->. done.
  - change (lit "s") with [115]. cbn [strip_prefix].
    destruct (c =? 115); [|done].
    apply Forall_cons in Hw as [_ Hw].
    by rewrite (lazy_dots_word rest w Hw Hrest).
Qed.

(** X6. An address is removed exactly.  In a text whose first [http] is
    followed by a word [w] without space and line terminator, itself
    followed by a space or by the end of the text, the last replacement
    removes [http] and [w] and nothing else: what precedes is kept, and so
    is what follows (the space included) when it holds no other [http]. *)
Theorem replaceAll_url_removes_exactly pre w rest :
  no_url (pre ++ lit "htt") →
  Forall (fun c => c ≠ SP ∧ lineTerminator c = false) w →
  rest = [] ∨ starts_with_space rest = true →
  no_url rest →
  replaceAll re_url [] (pre ++ lit "http" ++ w ++ rest) = pre ++ rest.
Proof.
  intros Hpre Hw Hrest Hno. unfold replaceAll.
  rewrite scan_url_flag, scan_url_before by done. f_equal.
  pose proof (re_url_word false w rest Hw Hrest) as Hm.
  change (lit "http" ++ w ++ rest)
    with (104 :: 116 :: 116 :: 112 :: w ++ rest) in *.
  rewrite scan_cons, Hm. simpl.
  rewrite (scan_skip _ _ (length w)) by (rewrite length_app; lia).
  rewrite drop_app_length. by apply replaceAll_url_id.
Qed.

Lemma replaceAll_url_removes_exactly_witness :
  replaceAll re_url [] (lit "see " ++ lit "http" ++ lit "s://x.y/z?q" ++ lit " now")
  = lit "see " ++ lit " now".
Proof.
  apply replaceAll_url_removes_exactly.
  - vm_compute. repeat split.
  - vm_compute. repeat constructor; discriminate.
  - right. reflexivity.
  - vm_compute. repeat split.
Defined.

(** ** The preview (lines 33-63) *)

(** X7. A document whose pages 1..n are there, whose text stays below
    the bound, and whose page n+1 is missing gets the text of its
    normalised pages, in order and uncut; a document without any page
    (n = 0) gets the empty string, not an error. *)
Theorem getTextPreview_short_document client fp n acc e :
  pages_text client n fp 1 = Some acc →
  (∀ k r, (k <= n)%nat → pages_text client k fp 1 = Some r →
     String_length r < MAX_TEXT_LENGTH) →
  client (pageKey fp (1 + N.of_nat n)) = Raise e →
  Code e = Some (lit "NoSuchKey") →
  ∀ fuel, (n < fuel)%nat → getTextPreview client fuel fp = Returned acc.
Proof.
  intros Hp Hk He Hc fuel Hfuel. unfold getTextPreview.
  replace fuel with (n + S (fuel - S n))%nat by lia.
  rewrite (loop_pages client fp n _ 1 [] acc Hp).
  - simpl. unfold loop_turn.
    specialize (Hk n acc ltac:(lia) Hp) as Hlt.
    apply N.ltb_lt in Hlt as Hlt'. rewrite Hlt', He.
    rewrite bool_decide_eq_true_2 by done.
    by rewrite slice0_short by lia.
  - intros k r Hlt Hr. simpl. apply (Hk k r); [lia|done].
Qed.

Lemma getTextPreview_short_document_witness :
  getTextPreview storageA 3 (lit "f1") = Returned (lit "HelloWorld") ∧
  getTextPreview storageA 1 (lit "none") = Returned [].
Proof.
  split.
  - apply (getTextPreview_short_document storageA (lit "f1") 2
             (lit "HelloWorld") (ServiceException (lit "NoSuchKey"))).
    + vm_compute. reflexivity.
    + intros k r Hk Hr.
      assert (k = 0%nat ∨ k = 1%nat ∨ k = 2%nat) as [-> | [-> | ->]] by lia;
        vm_compute in Hr; injection Hr as <-; vm_compute; reflexivity.
    + vm_compute. reflexivity.
    + reflexivity.
    + lia.
  - apply (getTextPreview_short_document storageA (lit "none") 0 []
             (ServiceException (lit "NoSuchKey"))).
    + reflexivity.
    + intros k r Hk Hr. assert (k = 0%nat) as -> by lia.
      injection Hr as <-. vm_compute. reflexivity.
    + vm_compute. reflexivity.
    + reflexivity.
    + lia.
Defined.

Lemma pages_text_Forall client (P : N → Prop) fp :
  (∀ str, Forall P (normalize str)) →
  ∀ n page acc, pages_text client n fp page = Some acc → Forall P acc.
Proof.
  intros HP. induction n as [|n IH]; intros page acc; simpl.
  - by intros [= <-].
  - destruct (client (pageKey fp page)) as [str|]; [|done].
    destruct (pages_text client n fp (page + 1)) as [r|] eqn:Hr; [|done].
    intros [= <-]. apply Forall_app. split; [apply HP|by eapply IH].
Qed.

(** X8. A preview that [getTextPreview] returns holds no carriage
    return, no line feed and no tab, whatever the storage holds. *)
Theorem getTextPreview_has_no_line_breaks client fuel fp s c :
  getTextPreview client fuel fp = Returned s →
  c ∈ s → c ≠ CR ∧ c ≠ LF ∧ c ≠ TAB.
Proof.
  intros (n & acc & Hp & -> & _)%loop_Returned Hc. simpl in Hp.
  apply (pages_text_Forall client (fun c => control c = false)) in Hp;
    [|apply normalize_no_controls].
  apply (Forall_take _ (N.to_nat MAX_TEXT_LENGTH)) in Hp.
  pose proof (proj1 (Forall_forall _ _) Hp c Hc) as H.
  unfold control in H. apply orb_false_iff in H as [H Htab].
  apply orb_false_iff in H as [Hcr Hlf].
  by rewrite !N.eqb_neq in *.
Qed.

Lemma getTextPreview_has_no_line_breaks_witness :
  (72 : N) ≠ CR ∧ (72 : N) ≠ LF ∧ (72 : N) ≠ TAB.
Proof.
  apply (getTextPreview_has_no_line_breaks storageA 3 (lit "f1")
           (lit "HelloWorld") 72).
  - vm_compute. reflexivity.
  - vm_compute. apply list_elem_of_here.
Defined.

Lemma uint_units_inj : ∀ d d', uint_units d = uint_units d' → d = d'.
Proof.
  induction d as [|d IH|d IH|d IH|d IH|d IH|d IH|d IH|d IH|d IH|d IH];
    intros [|d'|d'|d'|d'|d'|d'|d'|d'|d'|d']; simpl; try discriminate;
    try done; intros [= H]; f_equal; by apply IH.
Qed.

Lemma uint_units_digits d : Forall (fun c => c ≠ 47) (uint_units d).
Proof.
  induction d; simpl; constructor; try done.
Qed.

(** The last separator of a text splits it in one way only. *)
Lemma split_at_last (sep : N) : ∀ x x' d d',
  Forall (fun c => c ≠ sep) d → Forall (fun c => c ≠ sep) d' →
  x ++ sep :: d = x' ++ sep :: d' → x = x' ∧ d = d'.
Proof.
  assert (∀ x d d', Forall (fun c => c ≠ sep) d' →
            x ++ sep :: d = d' → False) as Hno.
  { intros x d d' Hd' <-. apply Forall_app in Hd' as [_ Hd'].
    apply Forall_cons in Hd' as [Hsep _]. done. }
  induction x as [|c x IH]; intros [|c' x'] d d' Hd Hd'; simpl.
  - by intros [= ->].
  - intros [= <- ->]. destruct (Hno x' d' (x' ++ sep :: d')); [|done].
    done.
  - intros [= -> <-]. destruct (Hno x d (x ++ sep :: d)); [|done].
    done.
  - intros [= <- H]. destruct (IH x' d d' Hd Hd' H) as [-> ->]. done.
Qed.

(** X9. Two requests of the loop never share a key: the key determines
    the fingerprint and the page number. *)
Theorem pageKey_inj fp fp' page page' :
  pageKey fp page = pageKey fp' page' → fp = fp' ∧ page = page'.
Proof.
  unfold pageKey. intros H. apply app_inv_head in H.
  rewrite !app_assoc in H. apply app_inv_tail in H.
  change (lit "/") with [47] in H. rewrite <- !app_assoc in H. simpl in H.
  apply split_at_last in H as [-> H]; [|apply uint_units_digits..].
  split; [done|]. apply uint_units_inj in H.
  by apply Unsigned.to_uint_inj.
Qed.

Lemma pageKey_inj_witness : lit "f1" = lit "f1" ∧ (2 : N) = 2.
Proof.
  apply (pageKey_inj (lit "f1") (lit "f1") 2 2). reflexivity.
Defined.


(** ** The buckets (lines 86-138) *)

(** X10. Every element of [newResults] lands in at least one bucket; one
    that is in [differentResults] is in no other bucket; and one that is
    in both [sameAsCurrent] and [sameAsExpected] has equal labels. *)
Theorem every_record_is_classified results outputFolder fs r :
  r ∈ summarize <$> results →
  let b := (aggregateResults results outputFolder fs).1 in
  in_buckets r b ∧
  (r ∈ differentResults b →
   (r ∉ sameAsCurrent b) ∧ (r ∉ sameAsExpected b)) ∧
  (r ∈ sameAsCurrent b → r ∈ sameAsExpected b →
   Summary.currentLanguage r = Summary.expectedLanguage r).
Proof.
  intros Hr. simpl. unfold in_buckets. simpl. rewrite !list_elem_of_filter.
  destruct (decide (Summary.currentLanguage r = Summary.newDetectedLanguage r));
    destruct (decide
                (Summary.expectedLanguage r = Summary.newDetectedLanguage r));
    intuition congruence.
Qed.

Lemma every_record_is_classified_witness :
  let r := summarize (recordA (lit "en") (lit "HelloWorld")) in
  let b :=
    (aggregateResults [recordA (lit "en") (lit "HelloWorld")] (lit "out") ∅).1
  in
  in_buckets r b ∧
  (r ∈ differentResults b →
   (r ∉ sameAsCurrent b) ∧ (r ∉ sameAsExpected b)) ∧
  (r ∈ sameAsCurrent b → r ∈ sameAsExpected b →
   Summary.currentLanguage r = Summary.expectedLanguage r).
Proof.
  apply (every_record_is_classified
           [recordA (lit "en") (lit "HelloWorld")] (lit "out") ∅).
  apply list_elem_of_here.
Defined.

(** X11. Each bucket keeps the order of the input: it is a subsequence
    of [newResults]. *)
Theorem buckets_keep_order results outputFolder fs :
  let b := (aggregateResults results outputFolder fs).1 in
  differentResults b `sublist_of` (summarize <$> results) ∧
  sameAsCurrent b `sublist_of` (summarize <$> results) ∧
  sameAsExpected b `sublist_of` (summarize <$> results).
Proof.
  simpl. split_and!; apply sublist_filter.
Qed.

Lemma classify_counts results :
  Forall (fun r => ResultRecord.currentLanguage r ≠
                   ResultRecord.expectedLanguage r) results →
  (length (differentResults (classify results)) +
   length (sameAsCurrent (classify results)) +
   length (sameAsExpected (classify results)) = length results)%nat.
Proof.
  unfold classify. simpl. induction 1 as [|r results Hr _ IH]; [done|].
  rewrite fmap_cons, !filter_cons. cbn [length] in *.
  repeat case_decide; cbn [length]; try lia; simpl in *.
  all: exfalso; intuition congruence.
Qed.

(** X12. When the two labels of every record differ (as in the two
    configured jobs), the three counts of lines 215-217 add up to the
    total of line 218. *)
Theorem bucket_counts_add_up results outputFolder fs :
  Forall (fun r => ResultRecord.currentLanguage r ≠
                   ResultRecord.expectedLanguage r) results →
  let b := (aggregateResults results outputFolder fs).1 in
  (length (differentResults b) + length (sameAsCurrent b) +
   length (sameAsExpected b) = length results)%nat.
Proof. apply classify_counts. Qed.

Lemma bucket_counts_add_up_witness :
  let b :=
    (aggregateResults [recordA (lit "en") (lit "HelloWorld")] (lit "out") ∅).1
  in
  (length (differentResults b) + length (sameAsCurrent b) +
   length (sameAsExpected b) = 1)%nat.
Proof.
  apply (bucket_counts_add_up
           [recordA (lit "en") (lit "HelloWorld")] (lit "out") ∅).
  constructor; [|constructor]. vm_compute. discriminate.
Defined.

Lemma path_ne (folder a b : jsstring) : a ≠ b → folder ++ a ≠ folder ++ b.
Proof. intros Hab H. by apply app_inv_head in H. Qed.

(** ** The samples (lines 140-169) *)

Lemma getSample_submseteq {A} cmp calls (results : list A) :
  (getSample cmp calls results).1 ⊆+ results.
Proof.
  unfold getSample. pose proof (Array_sort_perm cmp results calls) as Hperm.
  destruct (Array_sort cmp calls results) as [shuffled calls']. simpl in *.
  rewrite <- Hperm. apply submseteq_take.
Qed.

Lemma getSample_length {A} cmp calls (results : list A) :
  length (getSample cmp calls results).1 = (25 `min` length results)%nat.
Proof.
  unfold getSample. pose proof (Array_sort_perm cmp results calls) as Hperm.
  destruct (Array_sort cmp calls results) as [shuffled calls']. simpl in *.
  by rewrite length_take, Hperm.
Qed.

(** X14. Sampling is without replacement: from a bucket without
    duplicates, [getSample] draws a sample without duplicates, whatever
    the comparator answers. *)
Theorem getSample_NoDup {A} cmp calls (results : list A) :
  NoDup results → NoDup (getSample cmp calls results).1.
Proof.
  intros Hnd.
  destruct (submseteq_Permutation _ _ (getSample_submseteq cmp calls results))
    as [k Hk].
  rewrite Hk in Hnd. by apply NoDup_app in Hnd as [? _].
Qed.

Lemma getSample_NoDup_witness :
  NoDup (getSample (fun _ => Gt) 0 [1; 2; 3]%nat).1.
Proof.
  apply getSample_NoDup. apply (bool_decide_unpack _). vm_compute. exact I.
Defined.

(** X15. A bucket of at most 25 records is sampled whole: the sample is
    a permutation of the bucket. *)
Theorem getSample_small_bucket {A} cmp calls (results : list A) :
  (length results <= 25)%nat → (getSample cmp calls results).1 ≡ₚ results.
Proof.
  intros Hlen. apply submseteq_length_Permutation.
  - apply getSample_submseteq.
  - rewrite getSample_length. lia.
Qed.

Lemma getSample_small_bucket_witness :
  (getSample (fun _ => Gt) 0 [1; 2; 3]%nat).1 ≡ₚ [1; 2; 3]%nat.
Proof.
  apply getSample_small_bucket. simpl. lia.
Defined.

(** ** The job (lines 171-229) *)

Lemma all_returned_Some {A} (l : list (outcome A)) : ∀ vs,
  all_returned l = Some vs → l = Returned <$> vs.
Proof.
  induction l as [|[a|e|] l IH]; intros vs; simpl; try done.
  - by intros [= <-].
  - destruct (all_returned l) as [r|]; [|done]. simpl.
    intros [= <-]. by rewrite (IH r).
Qed.

Lemma Promise_all_Returned {A} (l : list (outcome A)) vs :
  Promise_all l = Returned vs → l = Returned <$> vs.
Proof.
  unfold Promise_all. destruct (first_thrown l); [done|].
  destruct (all_returned l) as [r|] eqn:Hr; [|done].
  intros [= <-]. by apply all_returned_Some.
Qed.

Lemma Promise_all_Thrown {A} (l : list (outcome A)) e :
  Thrown e ∈ l → ∃ e', Promise_all l = Thrown e'.
Proof.
  intros He. unfold Promise_all.
  assert (first_thrown l ≠ None) as Hne.
  { induction l as [|[a|e'|] l IH]; simpl.
    - by apply elem_of_nil in He.
    - apply elem_of_cons in He as [?|He]; [done|by apply IH].
    - done.
    - apply elem_of_cons in He as [?|He]; [done|by apply IH]. }
  destruct (first_thrown l) as [e'|]; [by exists e'|done].
Qed.

Lemma fmap_eq_Forall2 {A B C} (f : A → C) (g : B → C) : ∀ l k,
  f <$> l = g <$> k → Forall2 (fun a b => f a = g b) l k.
Proof.
  induction l as [|a l IH]; intros [|b k]; simpl; try done.
  intros [= Hab Hlk]. constructor; [done|by apply IH].
Qed.

Section JobFacts.
Variable csv_fromFile : jsstring → reply (list SourceRow.t).
Variable client : jsstring → reply jsstring.
Variable service : jsstring → reply (list Candidate).
Variable langdetect_detect : jsstring → list (jsstring * N).
Variable cmp : nat → comparison.

Lemma processFile_Returned fuel config file r :
  processFile client service langdetect_detect fuel config file = Returned r →
  record_of_row client fuel config file r.
Proof.
  unfold processFile.
  destruct (getTextPreview client fuel (SourceRow.fileurl file))
    as [textPreview| |] eqn:Hp; simpl; try done.
  destruct (detectLanguage service langdetect_detect textPreview)
    as [d| |]; simpl; try done.
  intros [= <-]. unfold record_of_row. simpl. split_and!; try done.
  apply loop_Returned in Hp as (n & acc & _ & -> & _).
  rewrite slice0_length. lia.
Qed.

Lemma runJob_Returned fuel k fs run :
  runJob csv_fromFile client service langdetect_detect cmp fuel k fs =
    Returned run →
  ∃ rows,
    csv_fromFile (JobConfig.materials (fileData k)) = Body rows ∧
    processFile client service langdetect_detect fuel (fileData k) <$> rows =
      Returned <$> run_results run ∧
    run_buckets run = classify (run_results run) ∧
    run_files run =
      getSamples cmp (classify (run_results run))
        (JobConfig.aggregatedResultsFolder (fileData k))
        (aggregateResults (run_results run)
           (JobConfig.aggregatedResultsFolder (fileData k))
           (writeFileSync (JobConfig.output (fileData k))
              (ResultRecord.toObject <$> run_results run) fs)).2.
Proof.
  unfold runJob.
  destruct (csv_fromFile (JobConfig.materials (fileData k))) as [rows|e];
    simpl; [|done].
  destruct (Promise_all _) as [results| |] eqn:HP; simpl; try done.
  intros [= <-]. exists rows. simpl.
  apply Promise_all_Returned in HP. done.
Qed.

(** X17. A job that completes has one record per row of its materials,
    in the order of the rows: the record has the [id], [name] and
    [fileurl] of its row, the two labels of the job, the preview fetched
    for the row, and a [textPreviewLength] that is the length of that
    preview and at most 24000. *)
Theorem runJob_records fuel k fs run :
  runJob csv_fromFile client service langdetect_detect cmp fuel k fs =
    Returned run →
  ∃ rows,
    csv_fromFile (JobConfig.materials (fileData k)) = Body rows ∧
    Forall2 (record_of_row client fuel (fileData k)) rows (run_results run).
Proof.
  intros (rows & Hcsv & Hrows & _)%runJob_Returned.
  exists rows. split; [done|].
  apply fmap_eq_Forall2 in Hrows.
  eapply Forall2_impl; [done|]. intros row r. apply processFile_Returned.
Qed.

(** X18. One failure fails the job: when reading the materials throws,
    or when the callback of one row throws, the job throws, whatever the
    other rows do. *)
Theorem runJob_fails_with_one_row fuel k fs :
  (∀ e, csv_fromFile (JobConfig.materials (fileData k)) = Raise e →
     runJob csv_fromFile client service langdetect_detect cmp fuel k fs =
       Thrown e) ∧
  (∀ rows row e,
     csv_fromFile (JobConfig.materials (fileData k)) = Body rows →
     row ∈ rows →
     processFile client service langdetect_detect fuel (fileData k) row =
       Thrown e →
     ∃ e',
       runJob csv_fromFile client service langdetect_detect cmp fuel k fs =
         Thrown e').
Proof.
  split.
  - intros e He. unfold runJob. by rewrite He.
  - intros rows row e Hcsv Hrow He. unfold runJob. rewrite Hcsv. simpl.
    destruct (Promise_all_Thrown
                (processFile client service langdetect_detect fuel
                   (fileData k) <$> rows) e) as [e' ->].
    + rewrite <- He. by apply list_elem_of_fmap_2.
    + by exists e'.
Qed.

Lemma getSamples_frame b outputFolder fs path :
  path ∉ sample_files outputFolder →
  getSamples cmp b outputFolder fs !! path = fs !! path.
Proof.
  unfold getSamples, sample_files, writeFileSync.
  destruct (getSample cmp 0 (differentResults b)) as [s1 c1].
  destruct (getSample cmp c1 (sameAsCurrent b)) as [s2 c2].
  destruct (getSample cmp c2 (sameAsExpected b)) as [s3 c3].
  rewrite !not_elem_of_cons. intros (H1 & H2 & H3 & _).
  by rewrite !lookup_insert_ne by done.
Qed.

Lemma aggregateResults_frame results outputFolder fs path :
  path ∉ aggregated_files outputFolder →
  (aggregateResults results outputFolder fs).2 !! path = fs !! path.
Proof.
  unfold aggregateResults, aggregated_files, writeFileSync. simpl.
  rewrite !not_elem_of_cons. intros (H1 & H2 & H3 & _).
  by rewrite !lookup_insert_ne by done.
Qed.

Lemma job_files_split k path :
  path ∉ job_files k →
  path ≠ JobConfig.output (fileData k) ∧
  (path ∉
     aggregated_files (JobConfig.aggregatedResultsFolder (fileData k))) ∧
  (path ∉ sample_files (JobConfig.aggregatedResultsFolder (fileData k))).
Proof.
  unfold job_files. rewrite not_elem_of_cons, not_elem_of_app. tauto.
Qed.

Lemma output_not_in_folder k :
  JobConfig.output (fileData k) ∉
    aggregated_files (JobConfig.aggregatedResultsFolder (fileData k)) ++
    sample_files (JobConfig.aggregatedResultsFolder (fileData k)).
Proof.
  destruct k; apply (bool_decide_unpack _); vm_compute; exact I.
Qed.

Lemma runJob_frame fuel k fs run path :
  runJob csv_fromFile client service langdetect_detect cmp fuel k fs =
    Returned run →
  path ∉ job_files k → run_files run !! path = fs !! path.
Proof.
  intros (rows & _ & _ & _ & ->)%runJob_Returned
    (Hout & Hagg & Hsam)%job_files_split.
  rewrite getSamples_frame, aggregateResults_frame by done.
  unfold writeFileSync. by rewrite lookup_insert_ne.
Qed.

(** X19. A job that completes has written the array of its full records
    (nine properties each) to its results file, and has left every file
    other than its seven output files as it was. *)
Theorem runJob_files fuel k fs run :
  runJob csv_fromFile client service langdetect_detect cmp fuel k fs =
    Returned run →
  run_files run !! JobConfig.output (fileData k) =
    Some (ResultRecord.toObject <$> run_results run) ∧
  ∀ path, path ∉ job_files k → run_files run !! path = fs !! path.
Proof.
  intros Hrun. split; [|intros path; by apply (runJob_frame fuel)].
  apply runJob_Returned in Hrun as (rows & _ & _ & _ & ->).
  pose proof (output_not_in_folder k) as [Hagg Hsam]%not_elem_of_app.
  rewrite getSamples_frame, aggregateResults_frame by done.
  apply lookup_insert_eq.
Qed.

(** X21. In a job that completes, the three counts of lines 215-217 add
    up to the total of line 218: the labels of the two configured jobs
    differ, so every record is in exactly one bucket. *)
Theorem runJob_counts_add_up fuel k fs run :
  runJob csv_fromFile client service langdetect_detect cmp fuel k fs =
    Returned run →
  (length (differentResults (run_buckets run)) +
   length (sameAsCurrent (run_buckets run)) +
   length (sameAsExpected (run_buckets run)) =
   length (run_results run))%nat.
Proof.
  intros Hrun.
  pose proof Hrun as (rows & _ & Hrows & -> & _)%runJob_Returned.
  apply classify_counts. apply fmap_eq_Forall2 in Hrows.
  apply Forall_forall. intros r Hr.
  apply list_elem_of_lookup in Hr as [i Hi].
  destruct (Forall2_lookup_r _ _ _ _ _ Hrows Hi) as (row & _ & Hp).
  simpl in Hp. apply processFile_Returned in Hp as (_ & _ & _ & -> & -> & _).
  destruct k; vm_compute; discriminate.
Qed.
End JobFacts.

Lemma job_files_disjoint k k' :
  k ≠ k' → Forall (fun path => path ∉ job_files k') (job_files k).
Proof.
  destruct k, k'; try done; intros _;
    apply (bool_decide_unpack _); vm_compute; exact I.
Qed.

(** X20. The two jobs do not touch each other's files: a job that
    completes leaves the seven output files of the other job as they
    were, whatever the storage, the service and the materials. *)
Theorem runJob_keeps_other_job_files
    csv_fromFile client service langdetect_detect cmp fuel k k' fs run path :
  k ≠ k' →
  runJob csv_fromFile client service langdetect_detect cmp fuel k fs =
    Returned run →
  path ∈ job_files k' → run_files run !! path = fs !! path.
Proof.
  intros Hk Hrun Hpath.
  apply (runJob_frame csv_fromFile client service langdetect_detect cmp
           fuel k fs run path Hrun).
  intros Hin.
  pose proof (proj1 (Forall_forall _ _) (job_files_disjoint k k' Hk) path Hin).
  done.
Qed.

Lemma runJob_records_witness :
  ∃ rows,
    csvA (JobConfig.materials (fileData es)) = Body rows ∧
    Forall2 (record_of_row storageA 3 (fileData es)) rows
      [recordA (lit "en") (lit "HelloWorld")].
Proof.
  destruct (runJobA (fun _ => Lt) 3 ltac:(lia)) as (run & Hrun & Hres & _).
  rewrite <- Hres.
  apply (runJob_records csvA storageA serviceA langdetectA (fun _ => Lt)
           3 es ∅ run Hrun).
Defined.

Lemma runJob_fails_with_one_row_witness :
  ∃ e',
    runJob csvA storageDown serviceA langdetectA (fun _ => Lt) 3 es ∅ =
      Thrown e'.
Proof.
  destruct (runJob_fails_with_one_row csvA storageDown serviceA langdetectA
              (fun _ => Lt) 3 es ∅) as [_ H].
  apply (H [ {| SourceRow.id := lit "1"; SourceRow.fileurl := lit "f1";
                SourceRow.name := lit "Doc1" |} ]
           {| SourceRow.id := lit "1"; SourceRow.fileurl := lit "f1";
              SourceRow.name := lit "Doc1" |}
           (ServiceException (lit "AccessDenied"))).
  - reflexivity.
  - apply list_elem_of_here.
  - vm_compute. reflexivity.
Defined.

Lemma runJob_files_witness :
  ∃ run,
    runJob csvA storageA serviceA langdetectA (fun _ => Lt) 3 es ∅ =
      Returned run ∧
    run_files run !! JobConfig.output (fileData es) =
      Some (ResultRecord.toObject <$> run_results run) ∧
    ∀ path, path ∉ job_files es → run_files run !! path = (∅ : files) !! path.
Proof.
  destruct (runJobA (fun _ => Lt) 3 ltac:(lia)) as (run & Hrun & _).
  exists run. split; [exact Hrun|].
  apply (runJob_files csvA storageA serviceA langdetectA (fun _ => Lt)
           3 es ∅ run Hrun).
Defined.

Lemma runJob_counts_add_up_witness :
  ∃ run,
    runJob csvA storageA serviceA langdetectA (fun _ => Lt) 3 es ∅ =
      Returned run ∧
    (length (differentResults (run_buckets run)) +
     length (sameAsCurrent (run_buckets run)) +
     length (sameAsExpected (run_buckets run)) =
     length (run_results run))%nat.
Proof.
  destruct (runJobA (fun _ => Lt) 3 ltac:(lia)) as (run & Hrun & _).
  exists run. split; [exact Hrun|].
  apply (runJob_counts_add_up csvA storageA serviceA langdetectA
           (fun _ => Lt) 3 es ∅ run Hrun).
Defined.

Lemma runJob_keeps_other_job_files_witness :
  ∃ run,
    runJob csvA storageA serviceA langdetectA (fun _ => Lt) 3 es ∅ =
      Returned run ∧
    run_files run !! JobConfig.output (fileData pt) =
      (∅ : files) !! JobConfig.output (fileData pt).
Proof.
  destruct (runJobA (fun _ => Lt) 3 ltac:(lia)) as (run & Hrun & _).
  exists run. split; [exact Hrun|].
  apply (runJob_keeps_other_job_files csvA storageA serviceA langdetectA
           (fun _ => Lt) 3 es pt ∅ run _ ltac:(done) Hrun).
  apply list_elem_of_here.
Defined.

(** ** The manual tally (lines 231-285) *)

Lemma readJSON_Returned fs path data :
  readJSON fs path = Returned data ↔ fs !! path = Some data.
Proof.
  unfold readJSON. destruct (fs !! path); split; congruence.
Qed.

Lemma tally_folder_init_iff fs folder r :
  tally_folder fs folder result_init = Returned r ↔
  r = result_init ∧ ∀ path, path ∈ sample_files folder → fs !! path = Some [].
Proof.
  unfold tally_folder, sample_files. setoid_rewrite elem_of_cons.
  setoid_rewrite elem_of_cons. setoid_rewrite elem_of_cons.
  setoid_rewrite elem_of_nil.
  pose proof (readJSON_Returned fs
    (folder ++ lit "/manual-analysis/different-than-expected-and-current-sample.json"))
    as H1.
  pose proof (readJSON_Returned fs
    (folder ++ lit "/manual-analysis/same-as-current-sample.json")) as H2.
  pose proof (readJSON_Returned fs
    (folder ++ lit "/manual-analysis/same-as-expected-sample.json")) as H3.
  destruct (readJSON fs (folder ++ lit "/manual-analysis/different-than-expected-and-current-sample.json"))
    as [l1| |]; simpl.
  2,3: split; [done|]; intros [_ H]; specialize (H _ (or_introl eq_refl));
       apply H1 in H; done.
  destruct (readJSON fs (folder ++ lit "/manual-analysis/same-as-current-sample.json"))
    as [l2| |]; simpl.
  2,3: split; [done|]; intros [_ H];
       specialize (H _ (or_intror (or_introl eq_refl)));
       apply H2 in H; done.
  destruct (readJSON fs (folder ++ lit "/manual-analysis/same-as-expected-sample.json"))
    as [l3| |]; simpl.
  2,3: split; [done|]; intros [_ H];
       specialize (H _ (or_intror (or_intror (or_introl eq_refl))));
       apply H3 in H; done.
  rewrite tally_items_init.
  pose proof (proj1 (H1 l1) eq_refl) as E1.
  pose proof (proj1 (H2 l2) eq_refl) as E2.
  pose proof (proj1 (H3 l3) eq_refl) as E3.
  split.
  - destruct l1, l2, l3; try done. intros [= <-]. split; [done|].
    intros path [->|[->|[->|[]]]]; done.
  - intros [-> H].
    rewrite (H _ (or_introl eq_refl)) in E1.
    rewrite (H _ (or_intror (or_introl eq_refl))) in E2.
    rewrite (H _ (or_intror (or_intror (or_introl eq_refl)))) in E3.
    by simplify_eq.
Qed.

(** X22. The tally completes exactly when the six sample files exist and
    are all empty, and its counters are then all zero: with any record in
    a sample file, or a sample file missing, it throws. *)
Theorem countManualAnalysisResults_completes_iff fs r :
  countManualAnalysisResults fs = Returned r ↔
  r = result_init ∧
  ∀ folder path,
    folder ∈ folders → path ∈ sample_files folder → fs !! path = Some [].
Proof.
  unfold countManualAnalysisResults, folders. simpl. split.
  - destruct (tally_folder fs _ result_init) as [r1| |] eqn:H1;
      simpl; try done.
    apply tally_folder_init_iff in H1 as [-> H1].
    intros [-> H2]%tally_folder_init_iff. split; [done|].
    intros folder path [->|[->|[]%elem_of_nil]%elem_of_cons]%elem_of_cons;
      [apply H1|apply H2].
  - intros [-> H].
    rewrite (proj2 (tally_folder_init_iff fs
      (lit "aggregated-results/materiais-studenta") result_init)).
    + simpl. apply tally_folder_init_iff. split; [done|].
      intros path. apply H. do 2 constructor.
    + split; [done|]. intros path. apply H. constructor.
Qed.

Lemma increment_Some method field result c :
  result !! method = Some c →
  increment method field result = Returned (<[method := field c]> result).
Proof. unfold increment. by intros ->. Qed.

Lemma tally_item_Some item result c1 c2 :
  result !! "new"%string = Some c1 →
  result !! "old"%string = Some c2 →
  tally_item item result =
  Returned
    (<["old"%string :=
         (if bool_decide (prop "oldAnalysis" item = Some Correto)
          then correct_incr else incorrect_incr) c2]>
       (<["new"%string :=
            (if bool_decide (prop "newAnalysis" item = Some Correto)
             then correct_incr else incorrect_incr) c1]> result)).
Proof.
  intros H1 H2. unfold tally_item.
  destruct (bool_decide (prop "newAnalysis" item = Some Correto));
    rewrite (increment_Some _ _ _ _ H1); simpl;
    destruct (bool_decide (prop "oldAnalysis" item = Some Correto));
    by rewrite (increment_Some _ _ _ c2)
      by (by rewrite lookup_insert_ne).
Qed.

(** X23. On a counter object that has the properties [new] and [old],
    the loop of lines 267-281 completes; it adds to [new.correct] the
    number of records whose [newAnalysis] is exactly ["Correto"] and to
    [new.incorrect] the number of all the others (a record without
    verdict included), does the same for [old] with [oldAnalysis], and
    changes no other property. *)
Theorem tally_items_counts items : ∀ result c1 c2,
  result !! "new"%string = Some c1 →
  result !! "old"%string = Some c2 →
  ∃ result' c1' c2',
    tally_items items result = Returned result' ∧
    result' !! "new"%string = Some c1' ∧
    result' !! "old"%string = Some c2' ∧
    correct c1' = correct c1 + count_correct "newAnalysis" items ∧
    correct c1' + incorrect c1' =
      correct c1 + incorrect c1 + N.of_nat (length items) ∧
    correct c2' = correct c2 + count_correct "oldAnalysis" items ∧
    correct c2' + incorrect c2' =
      correct c2 + incorrect c2 + N.of_nat (length items) ∧
    ∀ k, k ≠ "new"%string → k ≠ "old"%string → result' !! k = result !! k.
Proof.
  induction items as [|item items IH]; intros result c1 c2 H1 H2.
  - exists result, c1, c2. simpl. split_and!; try done; lia.
  - cbn [tally_items]. rewrite (tally_item_Some item result c1 c2 H1 H2).
    simpl.
    edestruct IH as (r' & c1' & c2' & Hr & Hn & Ho & E1 & E2 & E3 & E4 & Hk);
      [| |exists r', c1', c2'; split_and!; [exact Hr|exact Hn|exact Ho| | | | |]].
    + rewrite lookup_insert_ne by done. apply lookup_insert_eq.
    + apply lookup_insert_eq.
    + rewrite E1. cbn [count_correct].
      destruct (bool_decide (prop "newAnalysis" item = Some Correto));
        simpl; lia.
    + rewrite E2. cbn [length].
      destruct (bool_decide (prop "newAnalysis" item = Some Correto));
        simpl; lia.
    + rewrite E3. cbn [count_correct].
      destruct (bool_decide (prop "oldAnalysis" item = Some Correto));
        simpl; lia.
    + rewrite E4. cbn [length].
      destruct (bool_decide (prop "oldAnalysis" item = Some Correto));
        simpl; lia.
    + intros k Hnew Hold. rewrite Hk by done.
      by rewrite !lookup_insert_ne by done.
Qed.

Lemma tally_items_counts_witness :
  ∃ result' c1' c2',
    tally_items [annotatedA]
      {[ "new"%string := {| correct := 0; incorrect := 0 |};
         "old"%string := {| correct := 0; incorrect := 0 |} ]} =
      Returned result' ∧
    result' !! "new"%string = Some c1' ∧
    result' !! "old"%string = Some c2' ∧
    correct c1' = 0 + count_correct "newAnalysis" [annotatedA] ∧
    correct c1' + incorrect c1' = 0 + 0 + N.of_nat (length [annotatedA]) ∧
    correct c2' = 0 + count_correct "oldAnalysis" [annotatedA] ∧
    correct c2' + incorrect c2' = 0 + 0 + N.of_nat (length [annotatedA]) ∧
    ∀ k, k ≠ "new"%string → k ≠ "old"%string →
      result' !! k =
      ({[ "new"%string := {| correct := 0; incorrect := 0 |};
          "old"%string := {| correct := 0; incorrect := 0 |} ]}
         : gmap string Counter) !! k.
Proof.
  apply (tally_items_counts [annotatedA] _
           {| correct := 0; incorrect := 0 |}
           {| correct := 0; incorrect := 0 |});
    vm_compute; reflexivity.
Defined.

(** ** Blank pages and empty documents *)

Lemma all_spaces_blank s :
  Forall (fun c => c = SP) s ↔ spaces s = length s.
Proof.
  induction s as [|c t IH]; simpl; [done|].
  destruct (N.eqb_spec c SP) as [->|Hc].
  - rewrite Forall_cons, IH. split; [intros [_ ->]; done|].
    intros [= H]. done.
  - split; [by intros [? _]%Forall_cons|].
    pose proof (spaces_le t). lia.
Qed.

(** X25. A page that holds nothing but spaces normalises to the empty
    string: it adds nothing to the preview. *)
Theorem normalize_blank_page s :
  Forall (fun c => c = SP) s → normalize s = [].
Proof.
  intros Hs. rewrite normalize_plain.
  - apply (Forall_squeeze _ s), all_spaces_blank in Hs.
    unfold trim. rewrite Hs. by rewrite drop_all.
  - split.
    + eapply Forall_impl; [exact Hs|]. by intros c ->.
    + induction Hs as [|c t -> _ IH]; [done|]. by split.
Qed.

Lemma normalize_blank_page_witness : normalize [SP; SP; SP] = [].
Proof.
  apply normalize_blank_page. repeat constructor.
Defined.

(** X26. A document without pages is still classified: when the first
    page is missing, the callback of a row asks the two detectors about
    the empty text and builds a record with an empty preview of length
    0. *)
Theorem processFile_empty_document
    client service langdetect_detect fuel config file e first rest :
  client (pageKey (SourceRow.fileurl file) 1) = Raise e →
  Code e = Some (lit "NoSuchKey") →
  service [] = Body (first :: rest) →
  ∃ r,
    processFile client service langdetect_detect (S fuel) config file =
      Returned r ∧
    ResultRecord.textPreview r = [] ∧
    ResultRecord.textPreviewLength r = 0 ∧
    ResultRecord.newDetectedLanguage r = codex first ∧
    ResultRecord.oldDetectedLanguage r =
      match langdetect_detect [] with
      | [] => []
      | guess :: _ => guess.1
      end.
Proof.
  intros He Hc Hs.
  assert (getTextPreview client (S fuel) (SourceRow.fileurl file) =
          Returned []) as Hp.
  { unfold getTextPreview. simpl. unfold loop_turn. simpl. rewrite He.
    rewrite bool_decide_eq_true_2 by done. unfold slice0.
    by rewrite take_nil. }
  unfold processFile. rewrite Hp. simpl.
  unfold detectLanguage. rewrite Hs. simpl. eexists. split; [done|]. done.
Qed.

Lemma processFile_empty_document_witness :
  ∃ r,
    processFile storageA serviceA langdetectA 1 (fileData es)
      {| SourceRow.id := lit "2"; SourceRow.fileurl := lit "none";
         SourceRow.name := lit "Doc2" |} = Returned r ∧
    ResultRecord.textPreview r = [] ∧
    ResultRecord.textPreviewLength r = 0 ∧
    ResultRecord.newDetectedLanguage r = lit "en" ∧
    ResultRecord.oldDetectedLanguage r = lit "en".
Proof.
  apply (processFile_empty_document storageA serviceA langdetectA 0
           (fileData es)
           {| SourceRow.id := lit "2"; SourceRow.fileurl := lit "none";
              SourceRow.name := lit "Doc2" |}
           (ServiceException (lit "NoSuchKey")) {| codex := lit "en" |} []).
  - vm_compute. reflexivity.
  - reflexivity.
  - reflexivity.
Defined.


(** ** Normalising twice (lines 46-50) *)

Lemma re_url_None b s :
  re_url b s = None ↔
  ∀ r, strip_prefix (lit "http") s = Some r → lazy_dots r = None.
Proof.
  unfold re_url. destruct (strip_prefix (lit "http") s) as [t|]; [|done].
  change (lit "s") with [115]. split.
  - intros H r [= <-]. destruct t as [|c t']; cbn [strip_prefix] in H.
    + destruct (lazy_dots []); [done|done].
    + destruct (N.eqb_spec c 115) as [->|].
      * cbn [lazy_dots] in *. simpl in *.
        destruct (lazy_dots t'); [done|]. done.
      * by destruct (lazy_dots (c :: t')).
  - intros H. rewrite (H t eq_refl).
    destruct t as [|c t']; cbn [strip_prefix]; [done|].
    destruct (N.eqb_spec c 115) as [->|]; [|done].
    specialize (H _ eq_refl). cbn [lazy_dots] in H. simpl in H.
    by destruct (lazy_dots t').
Qed.

Lemma re_url_after b s k :
  re_url b s = Some k →
  (k <= length s)%nat ∧ (0 < k)%nat ∧
  (drop k s = [] ∨ starts_with_space (drop k s) = true).
Proof.
  assert (∀ x j, lazy_dots x = Some j →
            (j <= length x)%nat ∧
            (drop j x = [] ∨ starts_with_space (drop j x) = true)) as Hl.
  { induction x as [|c x IH]; intros j; cbn [lazy_dots].
    - intros [= <-]. by split; [|left].
    - destruct (c =? SP) eqn:Hc.
      + intros [= <-]. split; [lia|]. right. simpl. done.
      + destruct (lineTerminator c); [done|].
        destruct (lazy_dots x) as [i|]; [|done]. intros [= <-].
        destruct (IH i eq_refl) as [? ?]. simpl. split; [lia|done]. }
  unfold re_url.
  destruct (strip_prefix (lit "http") s) as [t|] eqn:Ht; [|done].
  apply strip_prefix_Some in Ht as ->. change (lit "s") with [115].
  assert (∀ j, lazy_dots t = Some j →
            (4 + j <= length (lit "http" ++ t))%nat ∧ (0 < 4 + j)%nat ∧
            (drop (4 + j) (lit "http" ++ t) = [] ∨
             starts_with_space (drop (4 + j) (lit "http" ++ t)) = true))
    as H4.
  { intros j Hj. destruct (Hl t j Hj) as [? ?].
    rewrite length_app. change (length (lit "http")) with 4%nat.
    split_and!; [lia|lia|].
    change (drop (4 + j) (lit "http" ++ t)) with (drop j t). done. }
  destruct t as [|c t']; cbn [strip_prefix].
  - destruct (lazy_dots []) as [j|] eqn:Hj; [|done]. intros [= <-].
    by apply H4.
  - destruct (N.eqb_spec c 115) as [->|].
    + destruct (lazy_dots t') as [j|] eqn:Hj.
      * intros [= <-]. apply (H4 (S j)). cbn [lazy_dots]. simpl.
        by rewrite Hj.
      * destruct (lazy_dots (115 :: t')) as [j|] eqn:Hj'; [|done].
        intros [= <-]. by apply H4.
    + destruct (lazy_dots (c :: t')) as [j|] eqn:Hj; [|done].
      intros [= <-]. by apply H4.
Qed.

(** A word that runs into a line terminator stays so under the scan. *)
Lemma lazy_dots_None_url s : lazy_dots s = None → re_url false s = None.
Proof.
  intros Hs. apply re_url_None. intros r ->%strip_prefix_Some.
  change (lit "http" ++ r) with (104 :: 116 :: 116 :: 112 :: r) in Hs.
  cbn [lazy_dots] in Hs. simpl in Hs.
  by destruct (lazy_dots r).
Qed.

Lemma scan_url_dead : ∀ s,
  lazy_dots s = None → lazy_dots (scan re_url [] false 0 s) = None.
Proof.
  induction s as [|c t IH]; [done|]. intros Hs.
  rewrite scan_cons, (lazy_dots_None_url _ Hs).
  cbn [lazy_dots] in *. destruct (c =? SP); [done|].
  destruct (lineTerminator c); [done|].
  destruct (lazy_dots t); [done|]. by rewrite IH.
Qed.

Lemma scan_url_starts s :
  s = [] ∨ starts_with_space s = true →
  scan re_url [] false 0 s = [] ∨
  starts_with_space (scan re_url [] false 0 s) = true.
Proof.
  intros [->|Hs]; [by left|]. destruct s as [|c t]; [done|].
  right. rewrite scan_cons. simpl in Hs. apply N.eqb_eq in Hs as ->.
  reflexivity.
Qed.

(** A word at the head of the scanned text was at the head of the text,
    and the scan went on after it. *)
Lemma strip_prefix_scan p : ∀ s r,
  p ≠ [] → Forall (fun a => a ≠ SP) p →
  strip_prefix p (scan re_url [] false 0 s) = Some r →
  re_url false s = None ∧
  ∃ r0, strip_prefix p s = Some r0 ∧ r = scan re_url [] false 0 r0.
Proof.
  induction p as [|a p IH]; intros s r Hne Hp; [done|].
  apply Forall_cons in Hp as [Ha Hp].
  destruct s as [|c t]; [done|]. rewrite scan_cons.
  destruct (re_url false (c :: t)) as [k|] eqn:Hk.
  - destruct (re_url_after _ _ _ Hk) as (Hle & Hpos & Hafter).
    destruct k as [|k]; [lia|]. simpl in Hle, Hafter.
    rewrite (scan_skip _ _ k) by lia. simpl.
    destruct (scan_url_starts _ Hafter) as [->|Hs]; [done|].
    destruct (scan re_url [] false 0 (drop k t)) as [|c' t']; [done|].
    simpl in Hs. apply N.eqb_eq in Hs as ->. cbn [strip_prefix].
    by destruct (N.eqb_spec SP a).
  - cbn [strip_prefix]. destruct (c =? a); [|done].
    destruct p as [|a' p].
    + intros [= <-]. split; [done|]. by exists t.
    + intros Hr. destruct (IH t r ltac:(done) Hp Hr) as (_ & r0 & Hr0 & ->).
      split; [done|]. by exists r0.
Qed.

(** After the last replacement its pattern matches nowhere. *)
Lemma scan_url_free s : url_free (scan re_url [] false 0 s).
Proof.
  remember (length s) as n eqn:Hn. revert s Hn.
  induction (lt_wf n) as [n _ IH]. intros s ->.
  destruct s as [|c t]; [done|].
  destruct (re_url false (c :: t)) as [k|] eqn:Hk.
  - rewrite scan_cons, Hk.
    destruct (re_url_after _ _ _ Hk) as (Hle & Hpos & _).
    destruct k as [|k]; [lia|]. simpl in Hle.
    rewrite (scan_skip _ _ k) by lia. simpl.
    apply (IH (length (drop k t))); [|done]. rewrite length_drop. simpl. lia.
  - assert (re_url false (scan re_url [] false 0 (c :: t)) = None) as Hhead.
    { apply re_url_None. intros r Hr.
      apply strip_prefix_scan in Hr as (_ & r0 & Hr0 & ->); [|done|].
      - apply scan_url_dead. by apply (proj1 (re_url_None false (c :: t)) Hk).
      - vm_compute. repeat constructor; discriminate. }
    rewrite scan_cons, Hk in *. split; [done|].
    apply (IH (length t)); [simpl; lia|done].
Qed.

Lemma url_free_id : ∀ s b, url_free s → scan re_url [] b 0 s = s.
Proof.
  induction s as [|c t IH]; intros b; [done|]. intros [Hc Ht].
  rewrite scan_url_flag, scan_cons, Hc. by rewrite IH.
Qed.

Lemma url_free_drop n : ∀ s, url_free s → url_free (drop n s).
Proof.
  induction n as [|n IH]; intros [|c t]; simpl; try done.
  intros [_ Ht]. by apply IH.
Qed.

Lemma lazy_dots_squeeze : ∀ s,
  lazy_dots s = None → lazy_dots (squeeze s) = None.
Proof.
  induction s as [|c t IH]; [done|]. cbn [lazy_dots squeeze].
  destruct (c =? SP) eqn:Hc; [done|]. cbn [andb lazy_dots]. rewrite Hc.
  destruct (lineTerminator c); [done|].
  destruct (lazy_dots t); [done|]. by rewrite IH.
Qed.

Lemma squeeze_app_word p : ∀ r,
  p ≠ [] → Forall (fun a => a ≠ SP) p → squeeze (p ++ r) = p ++ squeeze r.
Proof.
  induction p as [|a p IH]; intros r Hne Hp; [done|].
  apply Forall_cons in Hp as [Ha Hp]. simpl.
  apply N.eqb_neq in Ha as ->. simpl. destruct p as [|a' p]; [done|].
  by rewrite IH.
Qed.

Lemma url_free_squeeze s : url_free s → url_free (squeeze s).
Proof.
  induction s as [|c t IH]; [done|]. intros [Hc Ht].
  assert (re_url false (squeeze (c :: t)) = None) as Hhead.
  { apply re_url_None. intros r Hr.
    assert (Forall (fun a => a ≠ SP) (lit "http")) as Hword
      by (vm_compute; repeat constructor; discriminate).
    destruct (strip_prefix_squeeze (lit "http") _ _ Hword Hr) as [r0 Hr0].
    pose proof (proj1 (re_url_None _ _) Hc r0 Hr0) as Hdead.
    apply strip_prefix_Some in Hr0. rewrite Hr0 in Hr.
    rewrite squeeze_app_word in Hr by done.
    apply strip_prefix_Some, app_inv_head in Hr as <-.
    by apply lazy_dots_squeeze. }
  revert Hhead. cbn [squeeze].
  destruct ((c =? SP) && starts_with_space t); [by intros; apply IH|].
  intros Hhead. split; [done|by apply IH].
Qed.

Lemma trim_end_split s :
  ∃ r, s = trim_end s ++ r ∧ Forall (fun c => c = SP) r.
Proof.
  induction s as [|c t (r & IH & Hr)]; [by exists []|]. cbn [trim_end].
  destruct (blank (c :: t)) eqn:Hb.
  - exists (c :: t). split; [done|].
    apply all_spaces_blank. by apply Nat.eqb_eq.
  - exists r. simpl. by rewrite <- IH.
Qed.

Lemma lazy_dots_app_blank y : ∀ r,
  Forall (fun c => c = SP) y →
  lazy_dots (r ++ y) = None → lazy_dots r = None.
Proof.
  intros r Hy. induction r as [|c r IH]; simpl.
  - by destruct Hy as [|? ? ->].
  - destruct (c =? SP); [done|]. destruct (lineTerminator c); [done|].
    destruct (lazy_dots (r ++ y)); [done|]. intros _. by rewrite IH.
Qed.

Lemma url_free_trim_end s : url_free s → url_free (trim_end s).
Proof.
  induction s as [|c t IH]; [done|]. intros [Hc Ht].
  assert (re_url false (trim_end (c :: t)) = None) as Hhead.
  { apply re_url_None. intros r Hr.
    destruct (trim_end_split (c :: t)) as (y & Hy & Hblank).
    apply (strip_prefix_app _ _ y) in Hr as Hr'. rewrite <- Hy in Hr'.
    pose proof (proj1 (re_url_None _ _) Hc _ Hr') as Hdead.
    by apply (lazy_dots_app_blank y). }
  revert Hhead. cbn [trim_end].
  destruct (blank (c :: t)); [done|].
  intros Hhead. split; [done|by apply IH].
Qed.

Lemma trim_end_id s : last s ≠ Some SP → trim_end s = s.
Proof.
  induction s as [|c t IH]; [done|]. intros Hl. cbn [trim_end].
  destruct (blank (c :: t)) eqn:Hb.
  - exfalso. apply Nat.eqb_eq, all_spaces_blank in Hb.
    destruct (last (c :: t)) as [x|] eqn:Hx; [|by apply last_None in Hx].
    apply last_Some_elem_of in Hx as Hin.
    by rewrite (proj1 (Forall_forall _ _) Hb x Hin) in Hl.
  - f_equal. destruct t as [|c' t']; [done|]. apply IH.
    by rewrite last_cons_cons in Hl.
Qed.

(** The second pass only collapses and trims. *)
Lemma normalize_twice s :
  normalize (normalize s) = trim (squeeze (normalize s)).
Proof.
  rewrite (normalize_steps (normalize s)).
  rewrite strip_controls_id.
  - apply url_free_id.
    apply url_free_trim_end, url_free_drop, url_free_squeeze.
    rewrite normalize_steps, scan_url_flag. apply scan_url_free.
  - apply Forall_trim_end, Forall_drop, Forall_squeeze.
    apply normalize_no_controls.
Qed.

(** C5 (as amended). For every page, normalising the normalised page
    only collapses the runs of spaces and strips the spaces at both ends
    (what the deleted line breaks, tabs and addresses have left), so:
    - normalisation is idempotent at a page exactly when its normalised
      text has no two spaces in a row, does not start with a space and
      does not end with one;
    - a third pass never changes anything. *)
Theorem normalize_idempotent_iff s :
  normalize (normalize s) = trim (squeeze (normalize s)) ∧
  (normalize (normalize s) = normalize s ↔
   single_spaced (normalize s) ∧
   starts_with_space (normalize s) = false ∧
   last (normalize s) ≠ Some SP) ∧
  normalize (normalize (normalize s)) = normalize (normalize s).
Proof.
  split_and!.
  - apply normalize_twice.
  - rewrite normalize_twice. split.
    + intros <-. unfold trim. split_and!.
      * apply single_spaced_trim_end, single_spaced_drop,
          squeeze_single_spaced.
      * apply spaces_starts, spaces_trim_end, spaces_drop.
      * apply trim_end_last.
    + intros (H1 & H2 & H3). rewrite (single_spaced_squeeze _ H1).
      unfold trim. apply spaces_starts in H2 as ->. simpl.
      by apply trim_end_id.
  - rewrite (normalize_twice (normalize s)), normalize_twice.
    apply trim_squeeze_fixed.
Qed.

Example normalize_line_break_between_words :
  normalize (lit "a" ++ [LF] ++ lit "b") = lit "ab" ∧
  normalize (lit "ab") = lit "ab".
Proof. split; vm_compute; reflexivity. Qed.


(** ** Writes that the file system refuses (lines 120-131, 157-168, 207) *)

Lemma write_each_accepted sink writes : ∀ fs,
  Forall (fun path => sink path = None) writes.*1 →
  write_each sink writes fs = (written writes fs, None).
Proof.
  induction writes as [|[path data] writes IH]; intros fs; [done|].
  rewrite fmap_cons, Forall_cons. intros [Hp Hw]. simpl in *.
  rewrite Hp. by apply IH.
Qed.

Lemma written_cons path data writes fs :
  written ((path, data) :: writes) fs = written writes (writeFileSync path data fs).
Proof. reflexivity. Qed.

Lemma written_frame writes path : ∀ fs,
  path ∉ writes.*1 → written writes fs !! path = fs !! path.
Proof.
  induction writes as [|[p d] writes IH]; intros fs; [done|].
  rewrite fmap_cons, not_elem_of_cons. cbn [fst]. intros [Hne Hp].
  rewrite written_cons, IH by done.
  unfold writeFileSync. by rewrite lookup_insert_ne.
Qed.

Lemma written_lookup writes path data : ∀ fs,
  NoDup writes.*1 → (path, data) ∈ writes →
  written writes fs !! path = Some data.
Proof.
  induction writes as [|[p d] writes IH]; intros fs.
  - intros _ H. by apply elem_of_nil in H.
  - rewrite fmap_cons, NoDup_cons. cbn [fst]. intros [Hp Hnd].
    rewrite written_cons.
    intros [[= -> ->]|Hin]%elem_of_cons.
    + rewrite (written_frame writes p _ Hp). apply lookup_insert_eq.
    + by apply IH.
Qed.

Lemma written_app l1 l2 fs : written (l1 ++ l2) fs = written l2 (written l1 fs).
Proof. apply foldl_app. Qed.

Lemma write_each_app sink l1 l2 : ∀ fs,
  write_each sink (l1 ++ l2) fs =
  match write_each sink l1 fs with
  | (fs', None) => write_each sink l2 fs'
  | (fs', Some e) => (fs', Some e)
  end.
Proof.
  induction l1 as [|[p d] l1 IH]; intros fs; [done|]. simpl.
  destruct (sink p); [done|]. apply IH.
Qed.

Lemma write_each_stops sink done path data rest fs e :
  Forall (fun p => sink p = None) done.*1 →
  sink path = Some e →
  write_each sink (done ++ (path, data) :: rest) fs = (written done fs, Some e).
Proof.
  intros Hdone Hpath. rewrite write_each_app, write_each_accepted by done.
  simpl. by rewrite Hpath.
Qed.

Lemma write_each_frame sink writes path : ∀ fs,
  path ∉ writes.*1 → (write_each sink writes fs).1 !! path = fs !! path.
Proof.
  induction writes as [|[p d] writes IH]; intros fs; [done|].
  rewrite fmap_cons, not_elem_of_cons. intros [Hne Hp]. simpl in *.
  destruct (sink p); [done|]. rewrite IH by done.
  unfold writeFileSync. by rewrite lookup_insert_ne.
Qed.

Lemma write_each_refused sink writes path e : ∀ fs,
  path ∈ writes.*1 → sink path = Some e →
  ∃ e', (write_each sink writes fs).2 = Some e' ∧
        (write_each sink writes fs).1 !! path = fs !! path.
Proof.
  induction writes as [|[p d] writes IH]; intros fs.
  - intros H. by apply elem_of_nil in H.
  - rewrite fmap_cons, elem_of_cons. simpl. intros Hin Hpath.
    destruct (sink p) as [e0|] eqn:Hp; [by exists e0|].
    destruct Hin as [->|Hin]; [congruence|].
    destruct (IH (writeFileSync p d fs) Hin Hpath) as (e' & He' & Hl).
    exists e'. split; [done|]. rewrite Hl. unfold writeFileSync.
    rewrite lookup_insert_ne; [done|]. intros ->. congruence.
Qed.

Lemma write_each_None sink writes : ∀ fs fs',
  write_each sink writes fs = (fs', None) → fs' = written writes fs.
Proof.
  induction writes as [|[p d] writes IH]; intros fs fs'; cbn [write_each].
  - by intros [= <-].
  - destruct (sink p); [done|]. rewrite written_cons. apply IH.
Qed.

Lemma write_each_refused_frame sink writes path e fs :
  path ∈ writes.*1 → sink path = Some e →
  ∃ fs' e', write_each sink writes fs = (fs', Some e') ∧
            fs' !! path = fs !! path ∧
            ∀ p, p ∉ writes.*1 → fs' !! p = fs !! p.
Proof.
  intros Hin He.
  destruct (write_each_refused sink writes path e fs Hin He) as (e' & He' & Hl).
  pose proof (fun p => write_each_frame sink writes p fs) as Hframe.
  destruct (write_each sink writes fs) as [fs' o]. cbn [fst snd] in *.
  subst o. by exists fs', e'.
Qed.

Lemma sample_writes_spec cmp b outputFolder :
  ∃ s1 s2 s3,
    sample_writes cmp b outputFolder =
      [ (outputFolder ++
           lit "/manual-analysis/different-than-expected-and-current-sample.json",
         Summary.toObject <$> s1);
        (outputFolder ++ lit "/manual-analysis/same-as-current-sample.json",
         Summary.toObject <$> s2);
        (outputFolder ++ lit "/manual-analysis/same-as-expected-sample.json",
         Summary.toObject <$> s3) ] ∧
    s1 ⊆+ differentResults b ∧ s2 ⊆+ sameAsCurrent b ∧
    s3 ⊆+ sameAsExpected b ∧
    length s1 = (25 `min` length (differentResults b))%nat ∧
    length s2 = (25 `min` length (sameAsCurrent b))%nat ∧
    length s3 = (25 `min` length (sameAsExpected b))%nat.
Proof.
  unfold sample_writes.
  pose proof (getSample_submseteq cmp 0 (differentResults b)) as Hs1.
  pose proof (getSample_length cmp 0 (differentResults b)) as Hl1.
  destruct (getSample cmp 0 (differentResults b)) as [s1 c1].
  pose proof (getSample_submseteq cmp c1 (sameAsCurrent b)) as Hs2.
  pose proof (getSample_length cmp c1 (sameAsCurrent b)) as Hl2.
  destruct (getSample cmp c1 (sameAsCurrent b)) as [s2 c2].
  pose proof (getSample_submseteq cmp c2 (sameAsExpected b)) as Hs3.
  pose proof (getSample_length cmp c2 (sameAsExpected b)) as Hl3.
  destruct (getSample cmp c2 (sameAsExpected b)) as [s3 c3].
  exists s1, s2, s3. done.
Qed.

Lemma sample_writes_paths cmp b outputFolder :
  (sample_writes cmp b outputFolder).*1 = sample_files outputFolder.
Proof.
  destruct (sample_writes_spec cmp b outputFolder) as (s1 & s2 & s3 & -> & _).
  done.
Qed.

Lemma getSamples_written cmp b outputFolder fs :
  getSamples cmp b outputFolder fs =
  written (sample_writes cmp b outputFolder) fs.
Proof.
  unfold getSamples, sample_writes.
  destruct (getSample cmp 0 (differentResults b)) as [s1 c1].
  destruct (getSample cmp c1 (sameAsCurrent b)) as [s2 c2].
  by destruct (getSample cmp c2 (sameAsExpected b)) as [s3 c3].
Qed.

Lemma aggregated_files_NoDup outputFolder :
  NoDup (aggregated_files outputFolder).
Proof.
  unfold aggregated_files. repeat apply NoDup_cons_2; try apply NoDup_nil_2;
    rewrite ?not_elem_of_cons; split_and?; try apply not_elem_of_nil;
    apply path_ne; vm_compute; discriminate.
Qed.

Lemma sample_files_NoDup outputFolder : NoDup (sample_files outputFolder).
Proof.
  unfold sample_files. repeat apply NoDup_cons_2; try apply NoDup_nil_2;
    rewrite ?not_elem_of_cons; split_and?; try apply not_elem_of_nil;
    apply path_ne; vm_compute; discriminate.
Qed.

(** X13. When the file system accepts the three bucket paths of the
    output folder, [aggregateResults] returns the buckets and has written
    the three bucket files, each with the records of its bucket, every
    other file left as it was.  When it refuses one of the three paths,
    [aggregateResults] throws, the refused file is not written, and no
    file other than the bucket files is touched. *)
Theorem aggregateResults_sink_files sink results outputFolder fs :
  let b := (aggregateResults results outputFolder fs).1 in
  (Forall (fun path => sink path = None) (aggregated_files outputFolder) →
   ∃ fs',
     aggregateResults_sink sink results outputFolder fs = (fs', Returned b) ∧
     fs' !! (outputFolder ++
               lit "/different-than-expected-and-current.json") =
       Some (Summary.toObject <$> differentResults b) ∧
     fs' !! (outputFolder ++ lit "/same-as-current.json") =
       Some (Summary.toObject <$> sameAsCurrent b) ∧
     fs' !! (outputFolder ++ lit "/same-as-expected.json") =
       Some (Summary.toObject <$> sameAsExpected b) ∧
     ∀ path, path ∉ aggregated_files outputFolder →
       fs' !! path = fs !! path) ∧
  (∀ path e,
     path ∈ aggregated_files outputFolder → sink path = Some e →
     ∃ fs' e',
       aggregateResults_sink sink results outputFolder fs =
         (fs', Thrown e') ∧
       fs' !! path = fs !! path ∧
       ∀ p, p ∉ aggregated_files outputFolder → fs' !! p = fs !! p).
Proof.
  simpl. unfold aggregateResults_sink.
  set (b := classify results). set (w := bucket_writes b outputFolder).
  assert (w.*1 = aggregated_files outputFolder) as Hpaths by done.
  pose proof (aggregated_files_NoDup outputFolder) as Hnd.
  rewrite <- Hpaths in *. split.
  - intros Hok. rewrite (write_each_accepted sink w fs Hok).
    exists (written w fs). split_and!; [done|..].
    + apply written_lookup; [done|]. subst w. unfold bucket_writes.
      apply list_elem_of_here.
    + apply written_lookup; [done|]. subst w. unfold bucket_writes.
      apply list_elem_of_further, list_elem_of_here.
    + apply written_lookup; [done|]. subst w. unfold bucket_writes.
      do 2 apply list_elem_of_further. apply list_elem_of_here.
    + intros path. apply written_frame.
  - intros path e Hin He.
    destruct (write_each_refused_frame sink w path e fs Hin He)
      as (fs' & e' & -> & Hl & Hframe).
    by exists fs', e'.
Qed.

Lemma aggregateResults_sink_files_witness :
  let results := [recordA (lit "en") (lit "HelloWorld")] in
  let b := (aggregateResults results (lit "out") ∅).1 in
  (∃ fs',
     aggregateResults_sink (refuses []) results (lit "out") ∅ =
       (fs', Returned b) ∧
     fs' !! (lit "out" ++ lit "/different-than-expected-and-current.json") =
       Some (Summary.toObject <$> differentResults b) ∧
     fs' !! (lit "out" ++ lit "/same-as-current.json") =
       Some (Summary.toObject <$> sameAsCurrent b) ∧
     fs' !! (lit "out" ++ lit "/same-as-expected.json") =
       Some (Summary.toObject <$> sameAsExpected b) ∧
     ∀ path, path ∉ aggregated_files (lit "out") →
       fs' !! path = (∅ : files) !! path) ∧
  (∃ fs' e',
     aggregateResults_sink
       (refuses [lit "out" ++ lit "/same-as-current.json"]) results
       (lit "out") ∅ = (fs', Thrown e') ∧
     fs' !! (lit "out" ++ lit "/same-as-current.json") =
       (∅ : files) !! (lit "out" ++ lit "/same-as-current.json") ∧
     ∀ p, p ∉ aggregated_files (lit "out") → fs' !! p = (∅ : files) !! p).
Proof.
  intros results b. split.
  - apply (proj1 (aggregateResults_sink_files (refuses []) results
                    (lit "out") ∅)).
    unfold aggregated_files. repeat (constructor; [reflexivity|]).
    constructor.
  - apply (proj2 (aggregateResults_sink_files
                    (refuses [lit "out" ++ lit "/same-as-current.json"])
                    results (lit "out") ∅)
             (lit "out" ++ lit "/same-as-current.json")
             (OtherError "ENOENT")).
    + unfold aggregated_files.
      apply list_elem_of_further, list_elem_of_here.
    + vm_compute. reflexivity.
Defined.

(** X16. When the file system accepts the three sample paths of the
    folder, [getSamples] has written the three sample files, each with
    min(25, size of the bucket) records drawn from its own bucket, every
    other file left as it was.  When it refuses one of the three paths
    (the [manual-analysis] folder is missing, say), [getSamples] throws,
    the refused file is not written, and no file other than the sample
    files is touched. *)
Theorem getSamples_sink_files sink cmp b outputFolder fs :
  (Forall (fun path => sink path = None) (sample_files outputFolder) →
   ∃ s1 s2 s3,
     getSamples_sink sink cmp b outputFolder fs =
       (getSamples cmp b outputFolder fs, None) ∧
     getSamples cmp b outputFolder fs !!
       (outputFolder ++
          lit "/manual-analysis/different-than-expected-and-current-sample.json")
       = Some (Summary.toObject <$> s1) ∧
     getSamples cmp b outputFolder fs !!
       (outputFolder ++ lit "/manual-analysis/same-as-current-sample.json")
       = Some (Summary.toObject <$> s2) ∧
     getSamples cmp b outputFolder fs !!
       (outputFolder ++ lit "/manual-analysis/same-as-expected-sample.json")
       = Some (Summary.toObject <$> s3) ∧
     s1 ⊆+ differentResults b ∧ s2 ⊆+ sameAsCurrent b ∧
     s3 ⊆+ sameAsExpected b ∧
     length s1 = (25 `min` length (differentResults b))%nat ∧
     length s2 = (25 `min` length (sameAsCurrent b))%nat ∧
     length s3 = (25 `min` length (sameAsExpected b))%nat ∧
     ∀ path, path ∉ sample_files outputFolder →
       getSamples cmp b outputFolder fs !! path = fs !! path) ∧
  (∀ path e,
     path ∈ sample_files outputFolder → sink path = Some e →
     ∃ fs' e',
       getSamples_sink sink cmp b outputFolder fs = (fs', Some e') ∧
       fs' !! path = fs !! path ∧
       ∀ p, p ∉ sample_files outputFolder → fs' !! p = fs !! p).
Proof.
  unfold getSamples_sink. rewrite getSamples_written.
  pose proof (sample_writes_paths cmp b outputFolder) as Hpaths.
  pose proof (sample_files_NoDup outputFolder) as Hnd.
  destruct (sample_writes_spec cmp b outputFolder)
    as (s1 & s2 & s3 & Hw & Hsub).
  set (w := sample_writes cmp b outputFolder) in *.
  rewrite <- Hpaths in *. split.
  - intros Hok. rewrite (write_each_accepted sink w fs Hok).
    destruct Hsub as (Hs1 & Hs2 & Hs3 & Hl1 & Hl2 & Hl3).
    exists s1, s2, s3.
    split_and!; [done| | | |done|done|done|done|done|done|].
    + apply written_lookup; [done|]. rewrite Hw. apply list_elem_of_here.
    + apply written_lookup; [done|]. rewrite Hw.
      apply list_elem_of_further, list_elem_of_here.
    + apply written_lookup; [done|]. rewrite Hw.
      do 2 apply list_elem_of_further. apply list_elem_of_here.
    + intros path. apply written_frame.
  - intros path e Hin He.
    destruct (write_each_refused_frame sink w path e fs Hin He)
      as (fs' & e' & -> & Hl & Hframe).
    by exists fs', e'.
Qed.

Lemma getSamples_sink_files_witness :
  let b := classify [recordA (lit "en") (lit "HelloWorld")] in
  let cmp := fun _ : nat => Lt in
  let refused :=
    lit "out" ++
    lit "/manual-analysis/different-than-expected-and-current-sample.json" in
  (∃ s1 s2 s3,
     getSamples_sink (refuses []) cmp b (lit "out") ∅ =
       (getSamples cmp b (lit "out") ∅, None) ∧
     getSamples cmp b (lit "out") ∅ !! refused =
       Some (Summary.toObject <$> s1) ∧
     getSamples cmp b (lit "out") ∅ !!
       (lit "out" ++ lit "/manual-analysis/same-as-current-sample.json")
       = Some (Summary.toObject <$> s2) ∧
     getSamples cmp b (lit "out") ∅ !!
       (lit "out" ++ lit "/manual-analysis/same-as-expected-sample.json")
       = Some (Summary.toObject <$> s3) ∧
     s1 ⊆+ differentResults b ∧ s2 ⊆+ sameAsCurrent b ∧
     s3 ⊆+ sameAsExpected b ∧
     length s1 = (25 `min` length (differentResults b))%nat ∧
     length s2 = (25 `min` length (sameAsCurrent b))%nat ∧
     length s3 = (25 `min` length (sameAsExpected b))%nat ∧
     ∀ path, path ∉ sample_files (lit "out") →
       getSamples cmp b (lit "out") ∅ !! path = (∅ : files) !! path) ∧
  (∃ fs' e',
     getSamples_sink (refuses (sample_files (lit "out"))) cmp b
       (lit "out") ∅ = (fs', Some e') ∧
     fs' !! refused = (∅ : files) !! refused ∧
     ∀ p, p ∉ sample_files (lit "out") → fs' !! p = (∅ : files) !! p).
Proof.
  intros b cmp refused. split.
  - apply (proj1 (getSamples_sink_files (refuses []) cmp b (lit "out") ∅)).
    unfold sample_files. repeat (constructor; [reflexivity|]).
    constructor.
  - apply (proj2 (getSamples_sink_files (refuses (sample_files (lit "out")))
                    cmp b (lit "out") ∅)
             refused (OtherError "ENOENT")).
    + unfold sample_files. apply list_elem_of_here.
    + vm_compute. reflexivity.
Defined.

Section SinkFacts.
Variable sink : jsstring → option exn.
Variable csv_fromFile : jsstring → reply (list SourceRow.t).
Variable client : jsstring → reply jsstring.
Variable service : jsstring → reply (list Candidate).
Variable langdetect_detect : jsstring → list (jsstring * N).
Variable cmp : nat → comparison.

Lemma runJob_gather fuel k fs :
  runJob csv_fromFile client service langdetect_detect cmp fuel k fs =
  match gather csv_fromFile client service langdetect_detect fuel k with
  | Returned results =>
      Returned {| run_results := results;
                  run_buckets := classify results;
                  run_files := written (job_writes_data cmp k results) fs |}
  | Thrown e => Thrown e
  | OutOfFuel => OutOfFuel
  end.
Proof.
  unfold runJob, gather.
  destruct (csv_fromFile (JobConfig.materials (fileData k))) as [rows|e];
    cbn [settle mbind outcome_bind]; [|done].
  destruct (Promise_all _) as [results| |]; cbn [mbind outcome_bind]; try done.
  unfold job_writes_data. rewrite written_cons, written_app.
  rewrite <- getSamples_written. done.
Qed.

Lemma runJob_sink_gather fuel k fs :
  runJob_sink sink csv_fromFile client service langdetect_detect cmp fuel k fs =
  match gather csv_fromFile client service langdetect_detect fuel k with
  | Returned results =>
      match write_each sink (job_writes_data cmp k results) fs with
      | (fs', Some e) => (fs', Thrown e)
      | (fs', None) =>
          (fs', Returned {| run_results := results;
                            run_buckets := classify results;
                            run_files := fs' |})
      end
  | Thrown e => (fs, Thrown e)
  | OutOfFuel => (fs, OutOfFuel)
  end.
Proof.
  unfold runJob_sink.
  fold (gather csv_fromFile client service langdetect_detect fuel k).
  destruct (gather csv_fromFile client service langdetect_detect fuel k)
    as [results| |]; try done.
  unfold job_writes_data. cbn [write_each].
  destruct (sink (JobConfig.output (fileData k))); [done|].
  rewrite write_each_app. unfold aggregateResults_sink, getSamples_sink.
  destruct (write_each sink (bucket_writes _ _) _) as [fs1 [e|]]; [done|].
  by destruct (write_each sink (sample_writes _ _ _) _) as [fs2 [e|]].
Qed.

(** A job that completes although writes can be refused is the job of
    [runJob], with the same files. *)
Lemma runJob_sink_Returned fuel k fs fs' run :
  runJob_sink sink csv_fromFile client service langdetect_detect cmp fuel k fs =
    (fs', Returned run) →
  runJob csv_fromFile client service langdetect_detect cmp fuel k fs =
    Returned run ∧
  fs' = run_files run.
Proof.
  rewrite runJob_gather, runJob_sink_gather.
  destruct (gather csv_fromFile client service langdetect_detect fuel k)
    as [results| |]; try done.
  destruct (write_each sink _ fs) as [fs1 [e|]] eqn:Hw; [done|].
  apply write_each_None in Hw as ->. by intros [= <- <-].
Qed.

Lemma job_writes_data_paths k results :
  (job_writes_data cmp k results).*1 = job_files k.
Proof.
  unfold job_writes_data, job_files.
  by rewrite fmap_cons, fmap_app, sample_writes_paths.
Qed.

Lemma job_files_NoDup k : NoDup (job_files k).
Proof. destruct k; apply (bool_decide_unpack _); vm_compute; exact I. Qed.

(** X24. The writes of a job are not all-or-nothing.  A job whose
    materials or whose rows fail throws with no file written.  A job whose
    rows all succeed writes its seven files in the order of the source,
    up to the first path that the file system refuses: with every path
    accepted it completes with the seven files written; with the paths of
    [done] accepted and the next one refused it throws what the file
    system threw, the files of [done] hold what the complete job gives
    them, and every other file, the refused one and the later ones among
    them, is as it was. *)
Theorem runJob_sink_writes_prefix fuel k fs :
  (∀ e,
     runJob csv_fromFile client service langdetect_detect cmp fuel k fs =
       Thrown e →
     runJob_sink sink csv_fromFile client service langdetect_detect cmp
       fuel k fs = (fs, Thrown e)) ∧
  (∀ run,
     runJob csv_fromFile client service langdetect_detect cmp fuel k fs =
       Returned run →
     (Forall (fun path => sink path = None) (job_files k) →
      runJob_sink sink csv_fromFile client service langdetect_detect cmp
        fuel k fs = (run_files run, Returned run)) ∧
     (∀ done path rest e,
        job_files k = done ++ path :: rest →
        Forall (fun path => sink path = None) done →
        sink path = Some e →
        ∃ fs',
          runJob_sink sink csv_fromFile client service langdetect_detect cmp
            fuel k fs = (fs', Thrown e) ∧
          (∀ p, p ∈ done → fs' !! p = run_files run !! p) ∧
          (∀ p, p ∉ done → fs' !! p = fs !! p))).
Proof.
  rewrite runJob_gather, runJob_sink_gather.
  destruct (gather csv_fromFile client service langdetect_detect fuel k)
    as [results|e0|]; split; try done.
  - intros run [= <-]. cbn [run_files].
    set (w := job_writes_data cmp k results).
    pose proof (job_writes_data_paths k results) as Hpaths. fold w in Hpaths.
    pose proof (job_files_NoDup k) as Hnd. rewrite <- Hpaths in *. split.
    + intros Hok. by rewrite (write_each_accepted sink w fs Hok).
    + intros done path rest e Hsplit Hok He.
      apply fmap_app_inv in Hsplit as (wd & wr & -> & Hwr & Hw).
      destruct wr as [|[path' data] wr]; [done|].
      rewrite fmap_cons in Hwr. cbn [fst] in Hwr. injection Hwr as -> ->.
      rewrite Hw, (write_each_stops sink wd path' data wr fs e Hok He).
      exists (written wd fs). split_and!; [done|..].
      * intros p (pd & -> & Hin)%list_elem_of_fmap. destruct pd as [p d].
        cbn [fst]. rewrite Hw in Hnd.
        rewrite (written_lookup wd p d fs).
        -- symmetry. apply (written_lookup w p d fs); rewrite Hw; [done|].
           apply elem_of_app. by left.
        -- rewrite fmap_app in Hnd. by apply NoDup_app in Hnd as [? _].
        -- done.
      * intros p. apply written_frame.
  - by intros e [= <-].
Qed.
End SinkFacts.

Lemma runJob_sink_writes_prefix_witness :
  let folder := JobConfig.aggregatedResultsFolder (fileData es) in
  let cmp := fun _ : nat => Lt in
  let written_first :=
    JobConfig.output (fileData es) :: aggregated_files folder in
  runJob_sink (refuses []) csvDown storageA serviceA langdetectA cmp 3 es ∅ =
    (∅, Thrown (OtherError "ENOENT")) ∧
  ∃ run,
    runJob csvA storageA serviceA langdetectA cmp 3 es ∅ = Returned run ∧
    runJob_sink (refuses []) csvA storageA serviceA langdetectA cmp 3 es ∅ =
      (run_files run, Returned run) ∧
    ∃ fs',
      runJob_sink (refuses (sample_files folder)) csvA storageA serviceA
        langdetectA cmp 3 es ∅ = (fs', Thrown (OtherError "ENOENT")) ∧
      (∀ p, p ∈ written_first → fs' !! p = run_files run !! p) ∧
      (∀ p, p ∉ written_first → fs' !! p = (∅ : files) !! p).
Proof.
  intros folder cmp written_first. split.
  - apply (proj1 (runJob_sink_writes_prefix (refuses []) csvDown storageA
                    serviceA langdetectA cmp 3 es ∅)).
    reflexivity.
  - destruct (runJobA cmp 3 ltac:(lia)) as (run & Hrun & _).
    exists run. split; [exact Hrun|]. split.
    + apply (proj1 (proj2 (runJob_sink_writes_prefix (refuses []) csvA
                             storageA serviceA langdetectA cmp 3 es ∅)
                      run Hrun)).
      unfold job_files, aggregated_files, sample_files. cbn [app].
      repeat (constructor; [reflexivity|]). constructor.
    + apply (proj2 (proj2 (runJob_sink_writes_prefix
                             (refuses (sample_files folder)) csvA storageA
                             serviceA langdetectA cmp 3 es ∅)
                      run Hrun)
               written_first
               (folder ++
                lit "/manual-analysis/different-than-expected-and-current-sample.json")
               [ folder ++ lit "/manual-analysis/same-as-current-sample.json";
                 folder ++ lit "/manual-analysis/same-as-expected-sample.json" ]
               (OtherError "ENOENT")).
      * reflexivity.
      * unfold written_first, aggregated_files.
        repeat (constructor; [vm_compute; reflexivity|]). constructor.
      * vm_compute. reflexivity.
Defined.
